(* Verification development for xo (src/xo.go): the specification splitter,
   the per-match placeholder substitution engine with its run-scoped
   fallback table, and the error paths of main; and the older variant of
   the command in src/main.go, which splits with strings.Split and uses a
   different fallback marker.

   Go strings are byte strings.  The argument is kept as a list of bytes
   (each an 8-bit Z) and decoded with a transcription of
   unicode/utf8.DecodeRuneInString; once past the splitter, Go's regexp
   package reads strings rune by rune, so the formatter works on lists of
   runes (Z code points). *)

From Stdlib Require Import ZArith Lia.
From stdpp Require Import base list gmap strings.

Open Scope Z_scope.

Abbreviation rune := Z (only parsing).

(** The ASCII text of a Rocq string literal, as runes (or bytes). *)
Definition str (s : string) : list Z :=
  map (fun a => Z.of_nat (Ascii.nat_of_ascii a)) (String.list_ascii_of_string s).

(* ------------------------------------------------------------------ *)
(** * unicode/utf8 *)

Definition RuneError : rune := 65533.   (* U+FFFD *)
Definition MaxRune : rune := 1114111.   (* U+10FFFF *)

(** The [first] table and [acceptRanges] of unicode/utf8: for a leading
    byte that starts a multi-byte sequence, its size and the accepted
    range of the second byte. *)
Definition first_class (x : Z) : option (nat * Z * Z) :=
  if (194 <=? x) && (x <=? 223) then Some (2%nat, 128, 191)
  else if x =? 224 then Some (3%nat, 160, 191)
  else if (225 <=? x) && (x <=? 236) then Some (3%nat, 128, 191)
  else if x =? 237 then Some (3%nat, 128, 159)
  else if (238 <=? x) && (x <=? 239) then Some (3%nat, 128, 191)
  else if x =? 240 then Some (4%nat, 144, 191)
  else if (241 <=? x) && (x <=? 243) then Some (4%nat, 128, 191)
  else if x =? 244 then Some (4%nat, 128, 143)
  else None.

Definition is_cont (b : Z) : bool := (128 <=? b) && (b <=? 191).

(** utf8.DecodeRuneInString: the first rune of [s] and its width in
    bytes; (RuneError, 0) on the empty string, (RuneError, 1) on an
    invalid encoding. *)
Definition DecodeRuneInString (s : list Z) : rune * nat :=
  match s with
  | [] => (RuneError, 0%nat)
  | b0 :: s1 =>
    if b0 <? 128 then (b0, 1%nat)
    else match first_class b0 with
    | None => (RuneError, 1%nat)
    | Some (sz, lo, hi) =>
      match s1 with
      | [] => (RuneError, 1%nat)
      | b1 :: s2 =>
        if (b1 <? lo) || (hi <? b1) then (RuneError, 1%nat)
        else if (sz =? 2)%nat then
          (Z.lor (Z.shiftl (Z.land b0 31) 6) (Z.land b1 63), 2%nat)
        else match s2 with
        | [] => (RuneError, 1%nat)
        | b2 :: s3 =>
          if negb (is_cont b2) then (RuneError, 1%nat)
          else if (sz =? 3)%nat then
            (Z.lor (Z.lor (Z.shiftl (Z.land b0 15) 12) (Z.shiftl (Z.land b1 63) 6))
                   (Z.land b2 63), 3%nat)
          else match s3 with
          | [] => (RuneError, 1%nat)
          | b3 :: _ =>
            if negb (is_cont b3) then (RuneError, 1%nat)
            else (Z.lor (Z.lor (Z.lor (Z.shiftl (Z.land b0 7) 18)
                                       (Z.shiftl (Z.land b1 63) 12))
                                (Z.shiftl (Z.land b2 63) 6))
                        (Z.land b3 63), 4%nat)
          end
        end
      end
    end
  end.

(** utf8.EncodeRune (what bytes.Buffer.WriteRune appends): runes that are
    negative, beyond MaxRune or surrogates are written as RuneError. *)
Definition EncodeRune (r : rune) : list Z :=
  if (0 <=? r) && (r <? 128) then [r]
  else if (0 <=? r) && (r <? 2048) then
    [Z.lor 192 (Z.shiftr r 6); Z.lor 128 (Z.land r 63)]
  else
    let r := if (r <? 0) || (MaxRune <? r) || ((55296 <=? r) && (r <=? 57343))
             then RuneError else r in
    if r <? 65536 then
      [Z.lor 224 (Z.shiftr r 12); Z.lor 128 (Z.land (Z.shiftr r 6) 63);
       Z.lor 128 (Z.land r 63)]
    else
      [Z.lor 240 (Z.shiftr r 18); Z.lor 128 (Z.land (Z.shiftr r 12) 63);
       Z.lor 128 (Z.land (Z.shiftr r 6) 63); Z.lor 128 (Z.land r 63)].

(** utf8.ValidRune: in range and not a surrogate half. *)
Definition ValidRune (r : rune) : bool :=
  ((0 <=? r) && (r <? 55296)) || ((57343 <? r) && (r <=? MaxRune)).

Definition encode_runes (rs : list rune) : list Z := concat (map EncodeRune rs).

(** utf8.ValidString: no position of [s] decodes as an invalid encoding
    (a genuine U+FFFD decodes with width 3, never 1).  [fuel] bounds the
    number of runes; [length s] is enough. *)
Fixpoint valid_fuel (fuel : nat) (s : list Z) : bool :=
  match fuel with
  | O => true
  | S f =>
    match s with
    | [] => true
    | _ => let '(r, n) := DecodeRuneInString s in
           if (r =? RuneError) && (n =? 1)%nat then false
           else valid_fuel f (drop n s)
    end
  end.

Definition ValidString (s : list Z) : bool := valid_fuel (length s) s.

(** The runes of [s], decoded one after the other as Go's loops do. *)
Fixpoint decode_fuel (fuel : nat) (s : list Z) : list rune :=
  match fuel with
  | O => []
  | S f =>
    match s with
    | [] => []
    | _ => let '(r, n) := DecodeRuneInString s in r :: decode_fuel f (drop n s)
    end
  end.

Definition decode_all (s : list Z) : list rune := decode_fuel (length s) s.

(* ------------------------------------------------------------------ *)
(** * split (src/xo.go, lines 208-248) *)

Definition backslash : rune := 92.

(** One iteration of the `for len(str) > 0` loop per fuel unit; [buf] is
    the bytes.Buffer and [subs] the slice of finished components. *)
Fixpoint split_loop (fuel : nat) (delim : rune) (s : list Z)
    (buf : list Z) (subs : list (list Z)) : list (list Z) :=
  match fuel with
  | O => subs
  | S f =>
    match s with
    | [] => if decide (buf = []) then subs else subs ++ [buf]
    | _ =>
      let '(r, size) := DecodeRuneInString s in
      let s := drop size s in
      let '(peek, peekSize) := DecodeRuneInString s in
      if (r =? backslash) && (peek =? delim) then
        split_loop f delim (drop peekSize s) (buf ++ EncodeRune peek) subs
      else if r =? delim then
        if decide (buf = []) then split_loop f delim s buf subs
        else split_loop f delim s [] (subs ++ [buf])
      else split_loop f delim s (buf ++ EncodeRune r) subs
    end
  end.

(** [None] is the error return of split. *)
Definition split (s : list Z) : option (list (list Z)) :=
  if negb (ValidString s) then None
  else
    let '(delim, size) := DecodeRuneInString s in
    Some (split_loop (S (length s)) delim (drop size s) [] []).



(** The same loop over the decoded runes of the remainder, with the
    buffer held as runes: the peek past the last rune sees
    DecodeRuneInString("") = (RuneError, 0). *)
Fixpoint split_runes (delim : rune) (rs : list rune) (buf : list rune)
    (subs : list (list rune)) {struct rs} : list (list rune) :=
  match rs with
  | [] => if decide (buf = []) then subs else subs ++ [buf]
  | r :: rs' =>
    let plain :=
      if r =? delim then
        if decide (buf = []) then split_runes delim rs' buf subs
        else split_runes delim rs' [] (subs ++ [buf])
      else split_runes delim rs' (buf ++ [r]) subs in
    match rs' with
    | p :: rs'' =>
      if (r =? backslash) && (p =? delim) then split_runes delim rs'' (buf ++ [p]) subs
      else plain
    | [] =>
      (* the loop then ends with a non-empty buffer *)
      if (r =? backslash) && (RuneError =? delim) then subs ++ [buf ++ [RuneError]]
      else plain
    end
  end.

(** The splitter as the spec describes it: the remainder is read as a
    sequence of tokens (an escaped delimiter is a literal delimiter
    character, an unescaped delimiter is a separator, everything else is
    itself), cut at the separators, and the empty pieces are dropped. *)
Inductive token := Sep | Chr (c : rune).

Fixpoint spec_tokens (delim : rune) (s : list rune) : list token :=
  match s with
  | [] => []
  | c :: s' =>
    let plain := (if c =? delim then Sep else Chr c) :: spec_tokens delim s' in
    match s' with
    | d :: s'' =>
      if (c =? backslash) && (d =? delim) then Chr delim :: spec_tokens delim s''
      else plain
    | [] => plain
    end
  end.

Fixpoint pieces (ts : list token) : list (list rune) :=
  match ts with
  | [] => [[]]
  | Sep :: ts' => [] :: pieces ts'
  | Chr c :: ts' =>
    match pieces ts' with
    | p :: ps => (c :: p) :: ps
    | [] => [[c]]
    end
  end.

Fixpoint drop_empty (ps : list (list rune)) : list (list rune) :=
  match ps with
  | [] => []
  | [] :: ps' => drop_empty ps'
  | p :: ps' => p :: drop_empty ps'
  end.

(** [B] put in front of the first piece. *)
Definition prepend (B : list rune) (ps : list (list rune)) : list (list rune) :=
  match ps with
  | p :: ps' => (B ++ p) :: ps'
  | [] => [B]
  end.

Definition spec_split (rs : list rune) : list (list rune) :=
  match rs with
  | [] => []
  | delim :: rest => drop_empty (pieces (spec_tokens delim rest))
  end.


(* ------------------------------------------------------------------ *)
(** * Go's regexp: the parts xo relies on *)

(** Character classes of the patterns built in main. *)
Definition is_ascii_digit (c : rune) : bool := (48 <=? c) && (c <=? 57).
Definition is_ascii_letter (c : rune) : bool :=
  ((65 <=? c) && (c <=? 90)) || ((97 <=? c) && (c <=? 122)).

(** [-_A-Za-z0-9] *)
Definition fallback_char (c : rune) : bool :=
  (c =? 45) || (c =? 95) || is_ascii_letter c || is_ascii_digit c.

Definition dollar : rune := 36.
Definition newline : rune := 10.

(** fmt.Sprintf("%d", i) for a slice index. *)
Fixpoint digits_fuel (fuel n : nat) (acc : list rune) : list rune :=
  match fuel with
  | O => acc
  | S f =>
    let acc := (48 + Z.of_nat (n mod 10)) :: acc in
    if (n <? 10)%nat then acc else digits_fuel f (n / 10) acc
  end.

Definition itoa (n : nat) : list rune := digits_fuel (S n) n [].

Fixpoint chop_prefix (p s : list rune) : option (list rune) :=
  match p, s with
  | [], _ => Some s
  | c :: p', d :: s' => if c =? d then chop_prefix p' s' else None
  | _ :: _, [] => None
  end.

(** A compiled pattern, anchored at the start of its argument: on success
    the submatches (index 0 the whole match, [None] for a group that did
    not participate) and the text after the match, chosen as Go's
    leftmost-first semantics chooses them. *)
Definition matcher := list rune -> option (list (option (list rune)) * list rune).

(** FindStringSubmatch: the submatches of the leftmost match. *)
Fixpoint FindStringSubmatch (m : matcher) (s : list rune) : option (list (option (list rune))) :=
  match m s with
  | Some (gs, _) => Some gs
  | None => match s with [] => None | _ :: s' => FindStringSubmatch m s' end
  end.

Definition group_text (gs : list (option (list rune))) (k : nat) : list rune :=
  match nth_error gs k with Some (Some t) => t | _ => [] end.

Section Unicode.

(** unicode.IsLetter(r) || unicode.IsDigit(r) for runes beyond ASCII,
    where Go consults the Unicode tables; on ASCII they are the letters
    and decimal digits. *)
Variable letter_or_digit_beyond_ascii : rune -> bool.

Definition name_rune (r : rune) : bool :=
  if (0 <=? r) && (r <? 128) then is_ascii_letter r || is_ascii_digit r || (r =? 95)
  else letter_or_digit_beyond_ascii r.

Fixpoint take_name (s : list rune) : list rune * list rune :=
  match s with
  | c :: s' => if name_rune c then let '(n, r) := take_name s' in (c :: n, r) else ([], s)
  | [] => ([], [])
  end.

(** The number loop of extract: -1 on a non-digit or once num >= 1e8. *)
Fixpoint parse_num (name : list rune) (num : Z) : Z :=
  match name with
  | [] => num
  | c :: name' =>
    if (c <? 48) || (57 <? c) || (100000000 <=? num) then -1
    else parse_num name' (num * 10 + c - 48)
  end.

(** regexp.extract: the name after a `$` (optionally in braces), its
    number (-1 if it is not a number or has a leading zero) and the rest. *)
Definition extract (s : list rune) : option (list rune * Z * list rune) :=
  match s with
  | [] => None
  | _ =>
    let '(brace, s1) := match s with 123 :: s' => (true, s') | _ => (false, s) end in
    let '(name, after) := take_name s1 in
    match name with
    | [] => None
    | c0 :: name' =>
      let num := parse_num name 0 in
      let num := if (c0 =? 48) && negb (Nat.eqb (length name') 0) then -1 else num in
      if brace then
        match after with
        | 125 :: rest => Some (name, num, rest)
        | _ => None
        end
      else Some (name, num, after)
    end
  end.

(** regexp.expand for a template string.  None of the patterns expanded
    in xo has named groups, so a named reference appends nothing. *)
Fixpoint expand_fuel (fuel : nat) (gs : list (option (list rune))) (t : list rune) : list rune :=
  match fuel with
  | O => t
  | S f =>
    match t with
    | [] => []
    | c :: after =>
      if negb (c =? dollar) then c :: expand_fuel f gs after
      else match after with
      | d :: after' =>
        if d =? dollar then dollar :: expand_fuel f gs after'
        else match extract after with
        | None => dollar :: expand_fuel f gs after
        | Some (_, num, rest) =>
          (if 0 <=? num then
             match nth_error gs (Z.to_nat num) with Some (Some g) => g | _ => [] end
           else []) ++ expand_fuel f gs rest
        end
      | [] => [dollar]
      end
    end
  end.

Definition Expand (gs : list (option (list rune))) (t : list rune) : list rune :=
  expand_fuel (S (length t)) gs t.

(** ReplaceAllString: the matches are taken left to right, each search
    resuming where the previous match ended, and each is replaced by the
    expansion of the template [repl].  Used only with patterns that never
    match the empty string. *)
Fixpoint replace_fuel (fuel : nat) (m : matcher) (repl s : list rune) : list rune :=
  match fuel with
  | O => s
  | S f =>
    match s with
    | [] => []
    | c :: s' =>
      match m s with
      | Some (gs, rest) => Expand gs repl ++ replace_fuel f m repl rest
      | None => c :: replace_fuel f m repl s'
      end
    end
  end.

Definition ReplaceAllString (m : matcher) (s repl : list rune) : list rune :=
  replace_fuel (S (length s)) m repl s.

(* ------------------------------------------------------------------ *)
(** * The substitution loop of main (src/xo.go, lines 163-202) *)

(** `\$%d` *)
Definition placeholder (i : nat) : list rune := dollar :: itoa i.

Definition rxRepl (i : nat) : matcher := fun s =>
  match chop_prefix (placeholder i) s with
  | Some rest => Some ([Some (placeholder i)], rest)
  | None => None
  end.

(** The tail of the group `([-_A-Za-z0-9]((\\.)+)?)+` after its first
    character: a maximal run of allowed characters and escapes `\\.`
    (`.` does not match a newline). *)
Fixpoint fallback_tail (s : list rune) : list rune * list rune :=
  match s with
  | c :: s' =>
    if fallback_char c then let '(l, r) := fallback_tail s' in (c :: l, r)
    else if c =? backslash then
      match s' with
      | d :: s'' =>
        if negb (d =? newline) then let '(l, r) := fallback_tail s'' in (c :: d :: l, r)
        else ([], s)
      | [] => ([], s)
      end
    else ([], s)
  | [] => ([], [])
  end.

(** `(\$%d)\?:(([-_A-Za-z0-9]((\\.)+)?)+)`; the submatches listed are
    0 to 2, the only ones main reads (fallback[2] and the template "$1"). *)
Definition rxFallback (i : nat) : matcher := fun s =>
  match chop_prefix (placeholder i ++ [63; 58]) s with
  | Some (c :: r) =>
    if fallback_char c then
      let '(l, rest) := fallback_tail r in
      Some ([Some (placeholder i ++ [63; 58] ++ c :: l); Some (placeholder i); Some (c :: l)], rest)
    else None
  | _ => None
  end.

(** `\\(.)` *)
Definition rxEsc : matcher := fun s =>
  match s with
  | c :: d :: rest =>
    if (c =? backslash) && negb (d =? newline) then Some ([Some [c; d]; Some [d]], rest) else None
  | _ => None
  end.

Definition unescape (lit : list rune) : list rune := ReplaceAllString rxEsc lit (str "$1").

(** Lines 182-189: register the first marker's de-escaped literal unless
    index [i] already has a fallback, and strip every marker to `$i`. *)
Definition register_fallback (fallbacks : gmap nat (list rune)) (i : nat) (result : list rune)
    : gmap nat (list rune) * list rune :=
  match FindStringSubmatch (rxFallback i) result with
  | Some fallback =>
    if (1 <? length fallback)%nat then
      let fallbacks :=
        match fallbacks !! i with
        | Some _ => fallbacks
        | None => <[i := unescape (group_text fallback 2)]> fallbacks
        end in
      (fallbacks, ReplaceAllString (rxFallback i) result (str "$1"))
    else (fallbacks, result)
  | None => (fallbacks, result)
  end.

(** Lines 192-194. *)
Definition effective_value (fallbacks : gmap nat (list rune)) (i : nat) (value : list rune) : list rune :=
  match value with
  | [] => default [] (fallbacks !! i)
  | _ => value
  end.

(** One iteration of `for i, match := range group`. *)
Definition format_index (fallbacks : gmap nat (list rune)) (i : nat) (value result : list rune)
    : gmap nat (list rune) * list rune :=
  let '(fallbacks, result) := register_fallback fallbacks i result in
  (fallbacks, ReplaceAllString (rxRepl i) result (effective_value fallbacks i value)).

Fixpoint format_groups (fallbacks : gmap nat (list rune)) (i : nat) (group : list (list rune))
    (result : list rune) : gmap nat (list rune) * list rune :=
  match group with
  | [] => (fallbacks, result)
  | value :: group' =>
    let '(fallbacks, result) := format_index fallbacks i value result in
    format_groups fallbacks (S i) group' result
  end.

(** Lines 166-199: one output line, starting from a fresh copy of format. *)
Definition format_match (fallbacks : gmap nat (list rune)) (format : list rune)
    (group : list (list rune)) : gmap nat (list rune) * list rune :=
  format_groups fallbacks 0 group format.

(** Lines 165-202: the lines of all matches, the table threaded through. *)
Fixpoint format_all (fallbacks : gmap nat (list rune)) (format : list rune)
    (matches : list (list (list rune))) : gmap nat (list rune) * list (list rune) :=
  match matches with
  | [] => (fallbacks, [])
  | group :: matches' =>
    let '(fallbacks, line) := format_match fallbacks format group in
    let '(fallbacks, lines) := format_all fallbacks format matches' in
    (fallbacks, line :: lines)
  end.

(* ------------------------------------------------------------------ *)
(** * main (src/xo.go, lines 20-203) *)

(** What the process leaves behind: the lines printed on stdout (the
    help page counts as one entry), the messages on stderr, the status. *)
Record outcome := {
  stdout : list (list rune);
  stderr : list (list rune);
  exit_code : Z
}.

(** exitWithError: each message printed on stdout, then os.Exit(1). *)
Definition exitWithError (errs : list (list rune)) : outcome :=
  {| stdout := errs; stderr := []; exit_code := 1 |}.

(** The regexp engine that runs the user's pattern (regexp.Compile and
    FindAllSubmatch, with each submatch read as runes; nil is the empty
    list) and the help page generator are the Go libraries' own. *)
Variable regexp : Type.
Variable Compile : list Z -> option regexp.
Variable FindAllSubmatch : regexp -> list Z -> list (list (list rune)).
Variable GenerateHelpPage : option (list rune).

(** Lines 146-150: the pattern, behind `(?flags)` when flags are given. *)
Definition full_pattern (parts : list (list Z)) : list Z :=
  let pattern := nth 0 parts [] in
  if (2 <? length parts)%nat then str "(?" ++ nth 2 parts [] ++ str ")" ++ pattern
  else pattern.

(** [args] are the positional arguments left by flag.Parse; [tty] is
    whether stdin is a character device; [input] is all of stdin. *)
Definition xo_main (args : list (list Z)) (tty : bool) (input : list Z) : outcome :=
  match GenerateHelpPage with
  | None => {| stdout := []; stderr := [str "Error generating help page:"]; exit_code := 1 |}
  | Some helpPage =>
    match args with
    | [] => {| stdout := [helpPage]; stderr := []; exit_code := 0 |}
    | arg :: _ =>
      if tty then exitWithError [str "Nothing passed to stdin"] else
      match split arg with
      | None => exitWithError [str "Invalid argument string"]
      | Some parts =>
        if (length parts <=? 1)%nat then exitWithError [str "No pattern or formatter specified"]
        else if (3 <? length parts)%nat then
          exitWithError [str "Extra delimiter detected (maybe try one other than `/`)"]
        else
          let format := nth 1 parts [] in
          match Compile (full_pattern parts) with
          | None => exitWithError [str "Invalid regular expression"]
          | Some rx =>
            match FindAllSubmatch rx input with
            | [] => exitWithError [str "No matches found"]
            | matches =>
              {| stdout := (format_all ∅ (decode_all format) matches).2;
                 stderr := []; exit_code := 0 |}
            end
          end
      end
    end
  end.

End Unicode.

(** A classifier beyond ASCII for concrete runs (no letters or digits
    there); every concrete run below stays in ASCII. *)
Definition ascii_only (_ : rune) : bool := false.

(** Properties of a matcher used in the proofs: every match starts with
    the rune [h]; every match consumes at least one rune. *)
Definition heads_with (m : matcher) (h : rune) : Prop :=
  forall s x, m s = Some x -> exists s', s = h :: s'.

Definition consumes (m : matcher) : Prop :=
  forall s gs rest, m s = Some (gs, rest) -> (length rest < length s)%nat.

(** The text after a fallback literal ends it: it is empty or starts with
    a character that is neither allowed in a literal, nor a backslash,
    nor the `?` of a marker. *)
Definition ends_literal (post : list rune) : bool :=
  match post with
  | [] => true
  | c :: _ => negb (fallback_char c || (c =? backslash) || (c =? 63))
  end.

(** The text after a fallback literal cannot continue it: it is empty,
    or starts neither with a character allowed in a literal nor with a
    backslash escaping a character other than a newline. *)
Definition literal_stops (post : list rune) : bool :=
  match post with
  | [] => true
  | c :: s =>
    negb (fallback_char c)
    && negb ((c =? backslash) && match s with d :: _ => negb (d =? newline) | [] => false end)
  end.

(* ------------------------------------------------------------------ *)
(** * The older variant of the command (src/main.go) *)

(** strings.Index: the position of the leftmost occurrence of [sep]. *)
Fixpoint Index (s sep : list Z) : option nat :=
  match chop_prefix sep s with
  | Some _ => Some 0%nat
  | None => match s with [] => None | _ :: s' => option_map S (Index s' sep) end
  end.

(** The loop of strings.genSplit with n < 0 and sepSave = 0: cut at the
    leftmost separator while there is one (n = Count(s, sep) + 1 stops it
    exactly then).  main.go's separator is never empty, so the explode
    branch for an empty [sep] is left out; [fuel] bounds the pieces. *)
Fixpoint split_fuel (fuel : nat) (s sep : list Z) : list (list Z) :=
  match fuel with
  | O => [s]
  | S f =>
    match Index s sep with
    | None => [s]
    | Some m => take m s :: split_fuel f (drop (m + length sep) s) sep
    end
  end.

Definition strings_Split (s sep : list Z) : list (list Z) := split_fuel (S (length s)) s sep.

(** compact (src/main.go, lines 96-107): the non-empty strings, in order. *)
Fixpoint compact (strs : list (list Z)) : list (list Z) :=
  match strs with
  | [] => []
  | str :: strs' => if decide (str = []) then compact strs' else str :: compact strs'
  end.

(** How the older main ends: through os.Exit, or a run-time panic (Go
    prints the panic and its goroutine trace on stderr, status 2). *)
Inductive run_result := Exit (o : outcome) | Panic (msg : list rune).

(** throw (src/main.go, lines 116-121). *)
Definition throw (errs : list (list rune)) : outcome :=
  {| stdout := errs; stderr := []; exit_code := 1 |}.

(** `[-_$A-za-z1-9]`: note the range A-z, which also holds [ \ ] ^ _ and
    the backquote, the `$`, and no 0. *)
Definition old_fallback_char (c : rune) : bool :=
  (c =? 45) || (c =? 95) || (c =? 36) || ((65 <=? c) && (c <=? 122))
  || ((97 <=? c) && (c <=? 122)) || ((49 <=? c) && (c <=? 57)).

Fixpoint old_fallback_run (s : list rune) : list rune * list rune :=
  match s with
  | c :: s' => if old_fallback_char c then let '(l, r) := old_fallback_run s' in (c :: l, r)
               else ([], s)
  | [] => ([], [])
  end.

(** `(\$%d)\?:([-_$A-za-z1-9]+)` (src/main.go, line 68). *)
Definition old_rxFallback (i : nat) : matcher := fun s =>
  match chop_prefix (placeholder i ++ [63; 58]) s with
  | Some (c :: r) =>
    if old_fallback_char c then
      let '(l, rest) := old_fallback_run r in
      Some ([Some (placeholder i ++ [63; 58] ++ c :: l); Some (placeholder i); Some (c :: l)], rest)
    else None
  | _ => None
  end.

Section OldMain.

Variable letter_or_digit_beyond_ascii : rune -> bool.

(** src/main.go, lines 73-80: the literal is stored as matched. *)
Definition old_register (fallbacks : gmap nat (list rune)) (i : nat) (result : list rune)
    : gmap nat (list rune) * list rune :=
  match FindStringSubmatch (old_rxFallback i) result with
  | Some fallback =>
    if (1 <? length fallback)%nat then
      let fallbacks :=
        match fallbacks !! i with
        | Some _ => fallbacks
        | None => <[i := group_text fallback 2]> fallbacks
        end in
      (fallbacks, ReplaceAllString letter_or_digit_beyond_ascii (old_rxFallback i) result (str "$1"))
    else (fallbacks, result)
  | None => (fallbacks, result)
  end.

(** src/main.go, lines 66-90. *)
Definition old_format_index (fallbacks : gmap nat (list rune)) (i : nat) (value result : list rune)
    : gmap nat (list rune) * list rune :=
  let '(fallbacks, result) := old_register fallbacks i result in
  (fallbacks, ReplaceAllString letter_or_digit_beyond_ascii (rxRepl i) result
                (effective_value fallbacks i value)).

Fixpoint old_format_groups (fallbacks : gmap nat (list rune)) (i : nat) (group : list (list rune))
    (result : list rune) : gmap nat (list rune) * list rune :=
  match group with
  | [] => (fallbacks, result)
  | value :: group' =>
    let '(fallbacks, result) := old_format_index fallbacks i value result in
    old_format_groups fallbacks (S i) group' result
  end.

Fixpoint old_format_all (fallbacks : gmap nat (list rune)) (format : list rune)
    (matches : list (list (list rune))) : gmap nat (list rune) * list (list rune) :=
  match matches with
  | [] => (fallbacks, [])
  | group :: matches' =>
    let '(fallbacks, line) := old_format_groups fallbacks 0 group format in
    let '(fallbacks, lines) := old_format_all fallbacks format matches' in
    (fallbacks, line :: lines)
  end.

(** main.go does not validate its format.  Go's regexp reads a byte that
    starts no valid encoding as U+FFFD of width 1, which none of the
    formatter's patterns matches, and copies the byte to the output
    unchanged.  Such a byte [b] is kept as [invalid_base + b], apart from
    every code point, and written back as [b]. *)
Definition invalid_base : Z := 1114112.

Fixpoint decode_bytes_fuel (fuel : nat) (s : list Z) : list rune :=
  match fuel with
  | O => []
  | S f =>
    match s with
    | [] => []
    | b :: _ =>
      let '(r, n) := DecodeRuneInString s in
      (if (r =? RuneError) && (n =? 1)%nat then invalid_base + b else r)
        :: decode_bytes_fuel f (drop n s)
    end
  end.

Definition decode_bytes (s : list Z) : list rune := decode_bytes_fuel (length s) s.

Definition encode_bytes (rs : list rune) : list Z :=
  concat (map (fun r => if invalid_base <=? r then [r - invalid_base] else EncodeRune r) rs).

(** regexp.Compile, with err.Error() on failure, and FindAllSubmatch,
    each submatch read as [decode_bytes] reads the bytes it spans. *)
Variable regexp : Type.
Variable CompileE : list Z -> regexp + list rune.
Variable FindAllSubmatch : regexp -> list Z -> list (list (list rune)).

(** main (src/main.go, lines 15-94); [args] is os.Args[1:].  The output
    lines are bytes, printed as they are. *)
Definition old_main (args : list (list Z)) (tty : bool) (input : list Z) : run_result :=
  match args with
  | [] => Exit {| stdout := [str "Usage: xo '/<pattern>/<formatter>/[flags]'"];
                  stderr := []; exit_code := 0 |}
  | arg :: _ =>
    if tty then Exit (throw [str "Nothing passed to stdin"]) else
    match arg with
    | [] => Panic (str "runtime error: index out of range [0] with length 0")
    | b0 :: _ =>
      (* string(arg[0]): the byte read as a code point, UTF-8 encoded *)
      let delimiter := EncodeRune b0 in
      let parts := compact (strings_Split arg delimiter) in
      if (length parts <=? 1)%nat then Exit (throw [str "No pattern or formatter specified"])
      else if (3 <? length parts)%nat then
        Exit (throw [str "Extra delimiter detected (maybe try one other than `/`)"])
      else
        let pattern := nth 0 parts [] in
        let format := nth 1 parts [] in
        let flags := if (2 <? length parts)%nat then nth 2 parts [] else [] in
        match CompileE (str "(?" ++ flags ++ str ")" ++ pattern) with
        | inr err => Exit (throw [str "Invalid regular expression"; err])
        | inl rx =>
          match FindAllSubmatch rx input with
          | [] => Exit (throw [str "No matches found"])
          | matches =>
            Exit {| stdout := map encode_bytes (old_format_all ∅ (decode_bytes format) matches).2;
                    stderr := []; exit_code := 0 |}
          end
        end
    end
  end.

End OldMain.

(* ================================================================== *)
(** * Proofs *)

(** ** Examples from the spec and the help page *)

Example split_ex_minimal : split (str "/a/b/") = Some [str "a"; str "b"].
Proof. reflexivity. Qed.

Example split_ex_flags : split (str "/a/b/i") = Some [str "a"; str "b"; str "i"].
Proof. reflexivity. Qed.

Example split_ex_consecutive : split (str "//a//b//") = Some [str "a"; str "b"].
Proof. reflexivity. Qed.

Example split_ex_escape : split (str "/a\/b/c/") = Some [str "a/b"; str "c"].
Proof. reflexivity. Qed.

Example format_ex_hello :
  (format_all ascii_only ∅ (str "$1, $2!")
     [[str "Hello! My name is C3PO"; str "Hello"; str "C3PO"]]).2
  = [str "Hello, C3PO!"].
Proof. reflexivity. Qed.

Example format_ex_greetings :
  (format_all ascii_only ∅ (str "$1?:Greetings, $2!")
     [[str "My name is Chewbacca"; str ""; str "Chewbacca"]]).2
  = [str "Greetings, Chewbacca!"].
Proof. reflexivity. Qed.

Example format_ex_servers :
  (format_all ascii_only ∅ (str "$4@$2 -p $3?:22")
     [[str "staging: ..."; str "staging"; str "192.168.1.1"; str ""; str "user-2"]]).2
  = [str "user-2@192.168.1.1 -p 22"].
Proof. reflexivity. Qed.

(** ** UTF-8 decoding *)

Lemma DecodeRuneInString_width (s : list Z) :
  s <> [] ->
  (1 <= (DecodeRuneInString s).2 <= length s)%nat.
Proof.
  intros Hs. destruct s as [|b0 s1]; [congruence|].
  unfold DecodeRuneInString.
  repeat (case_match; simplify_eq/=); lia.
Qed.

Lemma DecodeRuneInString_nil : DecodeRuneInString [] = (RuneError, 0%nat).
Proof. reflexivity. Qed.

Lemma decode_fuel_enough (f : nat) (s : list Z) :
  (length s <= f)%nat -> decode_fuel f s = decode_all s.
Proof.
  unfold decode_all.
  assert (H : forall f1 f2 (s : list Z), (length s <= f1)%nat -> (length s <= f2)%nat ->
            decode_fuel f1 s = decode_fuel f2 s).
  { induction f1 as [|f1 IH]; intros f2 s' H1 H2.
    - destruct s'; [|simpl in H1; lia]. destruct f2; reflexivity.
    - destruct s' as [|b s'']; [destruct f2; reflexivity|].
      destruct f2 as [|f2]; [simpl in H2; lia|].
      cbn -[DecodeRuneInString]. destruct (DecodeRuneInString (b :: s'')) as [r n] eqn:E.
      pose proof (DecodeRuneInString_width (b :: s'') ltac:(discriminate)) as W.
      rewrite E in W. simpl in W, H1, H2.
      f_equal. apply IH; rewrite length_drop; simpl; lia. }
  intros Hf. apply H; lia.
Qed.

Lemma decode_all_cons (s : list Z) r n :
  s <> [] -> DecodeRuneInString s = (r, n) ->
  decode_all s = r :: decode_all (drop n s).
Proof.
  intros Hs E. pose proof (DecodeRuneInString_width s Hs) as W. rewrite E in W. simpl in W.
  destruct s as [|b s']; [congruence|].
  unfold decode_all at 1. cbn -[DecodeRuneInString]. rewrite E. f_equal.
  apply decode_fuel_enough. rewrite length_drop. simpl in *. lia.
Qed.

Lemma decode_all_nil : decode_all [] = [].
Proof. reflexivity. Qed.

Lemma EncodeRune_not_nil r : EncodeRune r <> [].
Proof. unfold EncodeRune. repeat case_match; discriminate. Qed.

Lemma encode_runes_app (xs ys : list rune) :
  encode_runes (xs ++ ys) = encode_runes xs ++ encode_runes ys.
Proof. unfold encode_runes. rewrite map_app, concat_app. reflexivity. Qed.

Lemma encode_runes_nil_iff (xs : list rune) : encode_runes xs = [] <-> xs = [].
Proof.
  split; [|intros ->; reflexivity].
  destruct xs as [|x xs]; [done|]. unfold encode_runes. simpl.
  intros H. apply app_eq_nil in H as [H _]. by apply EncodeRune_not_nil in H.
Qed.

Lemma encode_runes_single r : encode_runes [r] = EncodeRune r.
Proof. unfold encode_runes. simpl. by rewrite app_nil_r. Qed.

Lemma decide_nil_encode {A} (B : list rune) (x y : A) :
  (if decide (encode_runes B = []) then x else y) = (if decide (B = []) then x else y).
Proof.
  destruct (decide (encode_runes B = [])) as [E|E], (decide (B = [])) as [E'|E'];
    try reflexivity.
  - exfalso. apply E'. by apply encode_runes_nil_iff.
  - exfalso. subst B. by apply E.
Qed.

(** ** split: the byte loop is the rune loop over the decoded runes *)

Lemma split_runes_one delim r B S :
  split_runes delim [r] B S =
  if (r =? backslash) && (RuneError =? delim) then S ++ [B ++ [RuneError]]
  else if r =? delim then
    (if decide (B = []) then split_runes delim [] B S else split_runes delim [] [] (S ++ [B]))
  else split_runes delim [] (B ++ [r]) S.
Proof. reflexivity. Qed.

Lemma split_runes_two delim r p rs B S :
  split_runes delim (r :: p :: rs) B S =
  if (r =? backslash) && (p =? delim) then split_runes delim rs (B ++ [p]) S
  else if r =? delim then
    (if decide (B = []) then split_runes delim (p :: rs) B S
     else split_runes delim (p :: rs) [] (S ++ [B]))
  else split_runes delim (p :: rs) (B ++ [r]) S.
Proof. reflexivity. Qed.

Lemma split_loop_runes (delim : rune) :
  forall f (s buf : list Z) subs B S,
    (length s < f)%nat -> buf = encode_runes B -> subs = map encode_runes S ->
    split_loop f delim s buf subs = map encode_runes (split_runes delim (decode_all s) B S).
Proof.
  induction f as [|f IH]; intros s buf subs B S Hf -> ->; [lia|].
  destruct s as [|b s0].
  { cbn -[encode_runes]. rewrite decide_nil_encode.
    destruct (decide (B = [])); [done|]. rewrite map_app. reflexivity. }
  assert (Hs : b :: s0 <> []) by discriminate.
  cbn -[DecodeRuneInString decode_all encode_runes].
  destruct (DecodeRuneInString (b :: s0)) as [r n] eqn:Er.
  pose proof (DecodeRuneInString_width _ Hs) as W. rewrite Er in W. simpl in W.
  rewrite (decode_all_cons _ r n Hs Er).
  assert (Hlen : (length (drop n (b :: s0)) < length (b :: s0))%nat)
    by (rewrite length_drop; simpl in *; lia).
  destruct (drop n (b :: s0)) as [|c1 s2] eqn:Ed.
  - rewrite DecodeRuneInString_nil, decode_all_nil.
    rewrite split_runes_one. simpl in Hf.
    destruct ((r =? backslash) && (RuneError =? delim)) eqn:Eb.
    + destruct f as [|f]; [lia|]. cbn -[encode_runes EncodeRune].
      rewrite decide_False.
      2:{ intros E. apply app_eq_nil in E as [_ E]. by apply EncodeRune_not_nil in E. }
      rewrite map_app. cbn [map]. rewrite encode_runes_app, encode_runes_single. reflexivity.
    + destruct (r =? delim).
      * rewrite decide_nil_encode. destruct (decide (B = [])) as [->|HB].
        -- rewrite (IH [] _ _ [] S); [reflexivity|simpl; lia|done|done].
        -- rewrite (IH [] _ _ [] (S ++ [B])); [reflexivity|simpl; lia|done|by rewrite map_app].
      * rewrite (IH [] _ _ (B ++ [r]) S);
          [reflexivity|simpl; lia|by rewrite encode_runes_app, encode_runes_single|done].
  - assert (Hc : c1 :: s2 <> []) by discriminate.
    destruct (DecodeRuneInString (c1 :: s2)) as [peek ps] eqn:Ep.
    pose proof (DecodeRuneInString_width _ Hc) as W2. rewrite Ep in W2. simpl in W2.
    pose proof (decode_all_cons _ peek ps Hc Ep) as Hdec.
    assert (Hlen2 : (length (drop ps (c1 :: s2)) < length (c1 :: s2))%nat)
      by (rewrite length_drop; simpl in *; lia).
    simpl in Hf, Hlen.
    rewrite Hdec, split_runes_two, <- Hdec.
    destruct ((r =? backslash) && (peek =? delim)) eqn:Eb.
    + rewrite (IH _ _ _ (B ++ [peek]) S);
        [reflexivity|simpl in *; lia|by rewrite encode_runes_app, encode_runes_single|done].
    + destruct (r =? delim).
      * rewrite decide_nil_encode. destruct (decide (B = [])) as [->|HB].
        -- rewrite (IH _ _ _ [] S); [reflexivity|simpl in *; lia|done|done].
        -- rewrite (IH _ _ _ [] (S ++ [B])); [reflexivity|simpl in *; lia|done|by rewrite map_app].
      * rewrite (IH _ _ _ (B ++ [r]) S);
          [reflexivity|simpl in *; lia|by rewrite encode_runes_app, encode_runes_single|done].
Qed.

(** ** split: the rune loop is the spec's reading, unless the delimiter is U+FFFD *)

Lemma pieces_cons (ts : list token) : exists p ps, pieces ts = p :: ps.
Proof.
  induction ts as [|[|c] ts [p [ps IH]]]; simpl; eauto.
  rewrite IH. eauto.
Qed.

Lemma drop_empty_nonempty (p : list rune) ps :
  p <> [] -> drop_empty (p :: ps) = p :: drop_empty ps.
Proof. destruct p; [done|reflexivity]. Qed.

Lemma prepend_chr (B : list rune) c ts :
  prepend B (pieces (Chr c :: ts)) = prepend (B ++ [c]) (pieces ts).
Proof.
  destruct (pieces_cons ts) as [p [ps E]]. simpl. rewrite E. simpl.
  by rewrite <- app_assoc.
Qed.

Lemma spec_tokens_two delim c d s :
  spec_tokens delim (c :: d :: s) =
  if (c =? backslash) && (d =? delim) then Chr delim :: spec_tokens delim s
  else (if c =? delim then Sep else Chr c) :: spec_tokens delim (d :: s).
Proof. reflexivity. Qed.

Lemma split_runes_spec (delim : rune) :
  delim <> RuneError ->
  forall n (rs : list rune) B S, (length rs <= n)%nat ->
  split_runes delim rs B S = S ++ drop_empty (prepend B (pieces (spec_tokens delim rs))).
Proof.
  intros Hd. induction n as [|n IH]; intros rs B S Hn.
  { destruct rs; [|simpl in Hn; lia].
    cbn [split_runes spec_tokens pieces prepend]. rewrite app_nil_r.
    destruct (decide (B = [])) as [->|HB]; [by rewrite app_nil_r|].
    rewrite drop_empty_nonempty by done. reflexivity. }
  destruct rs as [|r [|p rs]].
  - apply (IH [] B S). simpl; lia.
  - rewrite split_runes_one.
    assert (E : (RuneError =? delim) = false) by (apply Z.eqb_neq; congruence).
    rewrite E, andb_false_r. simpl spec_tokens.
    destruct (r =? delim) eqn:Er.
    + cbn [pieces prepend]. rewrite app_nil_r.
      destruct (decide (B = [])) as [->|HB].
      * rewrite (IH [] [] S) by (simpl; lia). reflexivity.
      * rewrite (IH [] [] (S ++ [B])) by (simpl; lia).
        rewrite drop_empty_nonempty by done. simpl. by rewrite <- app_assoc.
    + rewrite prepend_chr. apply IH. simpl; lia.
  - rewrite split_runes_two, spec_tokens_two. simpl in Hn.
    destruct ((r =? backslash) && (p =? delim)) eqn:Eb.
    + apply andb_true_iff in Eb as [_ Ep]. apply Z.eqb_eq in Ep. subst p.
      rewrite prepend_chr. apply IH. lia.
    + destruct (r =? delim) eqn:Er.
      * cbn [pieces prepend]. rewrite app_nil_r.
        destruct (pieces_cons (spec_tokens delim (p :: rs))) as [q [qs Eq]].
        destruct (decide (B = [])) as [->|HB].
        -- rewrite (IH (p :: rs) [] S) by (simpl; lia). rewrite Eq. reflexivity.
        -- rewrite (IH (p :: rs) [] (S ++ [B])) by (simpl; lia).
           rewrite drop_empty_nonempty by done. rewrite Eq. simpl.
           by rewrite <- app_assoc.
      * rewrite prepend_chr. apply IH. simpl; lia.
Qed.

(** The splitter agrees with the spec's reading on every valid string whose
    delimiter is not U+FFFD. *)
Lemma split_spec_reading (s : list Z) :
  ValidString s = true ->
  (DecodeRuneInString s).1 <> RuneError ->
  split s = Some (map encode_runes (spec_split (decode_all s))).
Proof.
  intros Hv Hd. unfold split. rewrite Hv. simpl negb. cbv iota.
  destruct s as [|b s0]; [exfalso; apply Hd; reflexivity|].
  destruct (DecodeRuneInString (b :: s0)) as [delim size] eqn:E. simpl in Hd.
  rewrite (decode_all_cons (b :: s0) delim size ltac:(discriminate) E). simpl spec_split.
  pose proof (DecodeRuneInString_width (b :: s0) ltac:(discriminate)) as W.
  rewrite E in W. simpl in W.
  rewrite (split_loop_runes delim _ _ [] [] [] []); [|rewrite length_drop; simpl in *; lia|done|done].
  rewrite (split_runes_spec delim Hd (length (decode_all (drop size (b :: s0))))) by lia.
  destruct (pieces_cons (spec_tokens delim (decode_all (drop size (b :: s0))))) as [q [qs Eq]].
  rewrite Eq. reflexivity.
Qed.

(** ** C1 *)

(** C1 (code_bug): with U+FFFD as the delimiter (bytes EF BF BD), a
    trailing backslash is not followed by the delimiter, yet split writes
    a U+FFFD in its place: the peek past the end of the string returns
    DecodeRuneInString("") = (RuneError, 0), which equals the delimiter.
    The spec's reading keeps the backslash. *)
Theorem split_trailing_backslash_FFFD :
  ValidString [239; 191; 189; 97; 98; 92] = true /\
  split [239; 191; 189; 97; 98; 92] = Some [[97; 98; 239; 191; 189]] /\
  map encode_runes (spec_split (decode_all [239; 191; 189; 97; 98; 92])) = [[97; 98; 92]].
Proof. repeat split; reflexivity. Qed.

(** ** Matching and replacing *)

Section Regexp_facts.

Variable u : rune -> bool.

Lemma replace_fuel_none (m : matcher) (t : list rune) :
  forall f s, FindStringSubmatch m s = None -> replace_fuel u f m t s = s.
Proof.
  induction f as [|f IH]; intros s H; [reflexivity|].
  destruct s as [|c s']; [reflexivity|].
  simpl in H |- *. destruct (m (c :: s')) as [[gs rest]|]; [discriminate|].
  f_equal. by apply IH.
Qed.

Lemma ReplaceAllString_none (m : matcher) (s t : list rune) :
  FindStringSubmatch m s = None -> ReplaceAllString u m s t = s.
Proof. apply replace_fuel_none. Qed.

Lemma replace_fuel_enough (m : matcher) (t : list rune) :
  consumes m ->
  forall f1 f2 s, (length s < f1)%nat -> (length s < f2)%nat ->
  replace_fuel u f1 m t s = replace_fuel u f2 m t s.
Proof.
  intros Hc. induction f1 as [|f1 IH]; intros f2 s H1 H2; [lia|].
  destruct f2 as [|f2]; [lia|].
  destruct s as [|c s']; [reflexivity|]. simpl.
  destruct (m (c :: s')) as [[gs rest]|] eqn:E.
  - pose proof (Hc _ _ _ E). f_equal. apply IH; simpl in *; lia.
  - f_equal. apply IH; simpl in *; lia.
Qed.

Lemma ReplaceAllString_nil (m : matcher) (t : list rune) : ReplaceAllString u m [] t = [].
Proof. reflexivity. Qed.

Lemma ReplaceAllString_cons (m : matcher) (t : list rune) c s :
  consumes m ->
  ReplaceAllString u m (c :: s) t =
  match m (c :: s) with
  | Some (gs, rest) => Expand u gs t ++ ReplaceAllString u m rest t
  | None => c :: ReplaceAllString u m s t
  end.
Proof.
  intros Hc. unfold ReplaceAllString.
  change (length (c :: s)) with (S (length s)).
  change (replace_fuel u (S (S (length s))) m t (c :: s)) with
    (match m (c :: s) with
     | Some (gs, rest) => Expand u gs t ++ replace_fuel u (S (length s)) m t rest
     | None => c :: replace_fuel u (S (length s)) m t s
     end).
  destruct (m (c :: s)) as [[gs rest]|] eqn:E.
  - pose proof (Hc _ _ _ E). f_equal. apply replace_fuel_enough; [done| |]; simpl in *; lia.
  - reflexivity.
Qed.

Lemma matcher_nil (m : matcher) h : heads_with m h -> m [] = None.
Proof.
  intros Hh. destruct (m []) as [x|] eqn:E; [|done].
  destruct (Hh _ _ E) as [s' ?]. discriminate.
Qed.

Lemma matcher_other (m : matcher) h c s : heads_with m h -> c <> h -> m (c :: s) = None.
Proof.
  intros Hh Hc. destruct (m (c :: s)) as [x|] eqn:E; [|done].
  destruct (Hh _ _ E) as [s' Hs]. congruence.
Qed.

Lemma find_app (m : matcher) h (pre s : list rune) :
  heads_with m h -> h ∉ pre ->
  FindStringSubmatch m (pre ++ s) = FindStringSubmatch m s.
Proof.
  intros Hh. induction pre as [|c pre IH]; intros Hp; [reflexivity|].
  apply not_elem_of_cons in Hp as [Hc Hp].
  simpl. rewrite (matcher_other m h c) by done. auto.
Qed.

Lemma find_without (m : matcher) h (s : list rune) :
  heads_with m h -> h ∉ s -> FindStringSubmatch m s = None.
Proof.
  intros Hh Hs. rewrite <- (app_nil_r s), (find_app m h) by done.
  simpl. by rewrite (matcher_nil m h).
Qed.

Lemma replace_without (m : matcher) h (s t : list rune) :
  heads_with m h -> h ∉ s -> ReplaceAllString u m s t = s.
Proof. intros. apply ReplaceAllString_none. by apply (find_without m h). Qed.

Lemma replace_app (m : matcher) h (pre s t : list rune) :
  heads_with m h -> consumes m -> h ∉ pre ->
  ReplaceAllString u m (pre ++ s) t = pre ++ ReplaceAllString u m s t.
Proof.
  intros Hh Hc. induction pre as [|c pre IH]; intros Hp; [reflexivity|].
  apply not_elem_of_cons in Hp as [Hne Hp].
  simpl. rewrite ReplaceAllString_cons by done.
  rewrite (matcher_other m h c) by done. f_equal. auto.
Qed.

Lemma expand_fuel_without gs (t : list rune) :
  forall f, dollar ∉ t -> expand_fuel u f gs t = t.
Proof.
  induction t as [|c t IH]; intros f Ht; destruct f; try reflexivity.
  apply not_elem_of_cons in Ht as [Hc Ht].
  simpl. assert (E : (c =? dollar) = false) by (apply Z.eqb_neq; done).
  rewrite E. simpl. f_equal. auto.
Qed.

Lemma Expand_without gs (t : list rune) : dollar ∉ t -> Expand u gs t = t.
Proof. apply expand_fuel_without. Qed.

End Regexp_facts.

Lemma chop_prefix_spec (p s r : list rune) : chop_prefix p s = Some r -> s = p ++ r.
Proof.
  revert s. induction p as [|c p IH]; intros s H; simpl in H.
  - by injection H as ->.
  - destruct s as [|d s]; [discriminate|].
    destruct (c =? d) eqn:E; [|discriminate].
    apply Z.eqb_eq in E as ->. simpl. f_equal. auto.
Qed.

Lemma fallback_tail_spec (s l r : list rune) : fallback_tail s = (l, r) -> s = l ++ r.
Proof.
  revert l r. induction s as [s IH] using (well_founded_induction (Wf_nat.well_founded_ltof _ (@length rune))).
  unfold Wf_nat.ltof in IH.
  intros l r H. destruct s as [|c s']; simpl in H.
  - by injection H as <- <-.
  - destruct (fallback_char c).
    + destruct (fallback_tail s') as [l' r'] eqn:E. injection H as <- <-.
      simpl. f_equal. apply IH; [simpl; lia|done].
    + destruct (c =? backslash).
      * destruct s' as [|d s''].
        -- by injection H as <- <-.
        -- destruct (negb (d =? newline)).
           ++ destruct (fallback_tail s'') as [l' r'] eqn:E. injection H as <- <-.
              simpl. do 2 f_equal. apply IH; [simpl; lia|done].
           ++ by injection H as <- <-.
      * by injection H as <- <-.
Qed.

Lemma rxRepl_heads i : heads_with (rxRepl i) dollar.
Proof.
  intros s x H. unfold rxRepl in H.
  destruct (chop_prefix (placeholder i) s) as [r|] eqn:E; [|discriminate].
  apply chop_prefix_spec in E as ->. by exists (itoa i ++ r).
Qed.

Lemma rxRepl_consumes i : consumes (rxRepl i).
Proof.
  intros s gs rest H. unfold rxRepl in H.
  destruct (chop_prefix (placeholder i) s) as [r|] eqn:E; [|discriminate].
  injection H as _ <-. apply chop_prefix_spec in E as ->. rewrite length_app. simpl. lia.
Qed.

Lemma rxFallback_shape i s x :
  rxFallback i s = Some x ->
  exists c l rest, s = placeholder i ++ [63; 58] ++ c :: l ++ rest /\ x.2 = rest /\
    x.1 = [Some (placeholder i ++ [63; 58] ++ c :: l); Some (placeholder i); Some (c :: l)].
Proof.
  unfold rxFallback. destruct (chop_prefix (placeholder i ++ [63; 58]) s) as [[|c r]|] eqn:E;
    try discriminate.
  destruct (fallback_char c); [|discriminate].
  destruct (fallback_tail r) as [l rest] eqn:Et. intros H. injection H as <-.
  apply chop_prefix_spec in E. apply fallback_tail_spec in Et. subst.
  exists c, l, rest. rewrite <- app_assoc in *. auto.
Qed.

Lemma rxFallback_heads i : heads_with (rxFallback i) dollar.
Proof.
  intros s x H. destruct (rxFallback_shape i s x H) as (c & l & rest & -> & _). simpl. eauto.
Qed.

Lemma rxFallback_consumes i : consumes (rxFallback i).
Proof.
  intros s gs rest H. destruct (rxFallback_shape i s _ H) as (c & l & rest' & -> & Hr & _).
  simpl in Hr. subst rest'. rewrite !length_app. simpl. rewrite ?length_app. lia.
Qed.

Lemma rxEsc_heads : heads_with rxEsc backslash.
Proof.
  intros s x H. unfold rxEsc in H. destruct s as [|c [|d rest]]; try discriminate.
  destruct ((c =? backslash) && negb (d =? newline)) eqn:E; [|discriminate].
  apply andb_true_iff in E as [E _]. apply Z.eqb_eq in E as ->. eauto.
Qed.

Lemma rxEsc_consumes : consumes rxEsc.
Proof.
  intros s gs rest H. unfold rxEsc in H. destruct s as [|c [|d r]]; try discriminate.
  destruct (_ && _); [|discriminate]. injection H as _ <-. simpl. lia.
Qed.

Lemma find_rxFallback_length i (r : list rune) gs :
  FindStringSubmatch (rxFallback i) r = Some gs -> length gs = 3%nat.
Proof.
  induction r as [|c r IH]; intros H; cbn [FindStringSubmatch] in H.
  - rewrite (matcher_nil _ _ (rxFallback_heads i)) in H. discriminate.
  - destruct (rxFallback i (c :: r)) as [[gs' rest]|] eqn:E.
    + injection H as <-.
      destruct (rxFallback_shape i _ _ E) as (c' & l & rest' & _ & _ & Hg). simpl in Hg. by subst.
    + auto.
Qed.

(** ** The fallback table and the substitution steps *)

Section Formatter_facts.

Variable u : rune -> bool.

Lemma register_without fbs i (r : list rune) :
  dollar ∉ r -> register_fallback u fbs i r = (fbs, r).
Proof.
  intros Hr. unfold register_fallback.
  by rewrite (find_without _ dollar) by (done || apply rxFallback_heads).
Qed.

Lemma format_index_without fbs i (value r : list rune) :
  dollar ∉ r -> format_index u fbs i value r = (fbs, r).
Proof.
  intros Hr. unfold format_index. rewrite register_without by done.
  by rewrite (replace_without u _ dollar) by (done || apply rxRepl_heads).
Qed.

Lemma format_groups_without (g : list (list rune)) :
  forall fbs k (r : list rune), dollar ∉ r -> format_groups u fbs k g r = (fbs, r).
Proof.
  induction g as [|v g IH]; intros fbs k r Hr; [reflexivity|].
  simpl. rewrite format_index_without by done. auto.
Qed.

Lemma register_keeps fbs i (r : list rune) j X :
  fbs !! j = Some X -> (register_fallback u fbs i r).1 !! j = Some X.
Proof.
  intros Hj. unfold register_fallback.
  destruct (FindStringSubmatch _ r) as [gs|]; [|done].
  destruct (1 <? length gs)%nat; [|done].
  destruct (fbs !! i) eqn:Ei; [done|]. simpl.
  rewrite lookup_insert_ne; [done|]. congruence.
Qed.

Lemma format_index_keeps fbs i (value r : list rune) j X :
  fbs !! j = Some X -> (format_index u fbs i value r).1 !! j = Some X.
Proof.
  intros Hj. unfold format_index.
  pose proof (register_keeps fbs i r j X Hj) as H.
  destruct (register_fallback u fbs i r). exact H.
Qed.

Lemma format_groups_keeps (g : list (list rune)) :
  forall fbs k (r : list rune) j X,
  fbs !! j = Some X -> (format_groups u fbs k g r).1 !! j = Some X.
Proof.
  induction g as [|v g IH]; intros fbs k r j X Hj; [done|].
  simpl. pose proof (format_index_keeps fbs k v r j X Hj) as H.
  destruct (format_index u fbs k v r). auto.
Qed.

Lemma format_all_keeps (fmt : list rune) (ms : list (list (list rune))) :
  forall fbs j X, fbs !! j = Some X -> (format_all u fbs fmt ms).1 !! j = Some X.
Proof.
  induction ms as [|g ms IH]; intros fbs j X Hj; [done|].
  simpl. pose proof (format_groups_keeps g fbs 0 fmt j X Hj) as H.
  unfold format_match. destruct (format_groups u fbs 0 g fmt) as [fbs1 line].
  pose proof (IH fbs1 j X H) as H2. destruct (format_all u fbs1 fmt ms). exact H2.
Qed.

Lemma format_all_app (fmt : list rune) (ms1 ms2 : list (list (list rune))) fbs :
  format_all u fbs fmt (ms1 ++ ms2) =
  ((format_all u (format_all u fbs fmt ms1).1 fmt ms2).1,
   (format_all u fbs fmt ms1).2 ++ (format_all u (format_all u fbs fmt ms1).1 fmt ms2).2).
Proof.
  revert fbs. induction ms1 as [|g ms1 IH]; intros fbs.
  - simpl. by destruct (format_all u fbs fmt ms2).
  - simpl. destruct (format_match u fbs fmt g) as [fbs1 line].
    rewrite IH. destruct (format_all u fbs1 fmt ms1) as [t1 ls1]. simpl.
    by destruct (format_all u t1 fmt ms2).
Qed.

Lemma register_existing fbs i (r : list rune) X :
  fbs !! i = Some X ->
  register_fallback u fbs i r = (fbs, ReplaceAllString u (rxFallback i) r (str "$1")).
Proof.
  intros Hi. unfold register_fallback.
  destruct (FindStringSubmatch (rxFallback i) r) as [gs|] eqn:E.
  - rewrite (find_rxFallback_length i r gs E). simpl. by rewrite Hi.
  - by rewrite ReplaceAllString_none.
Qed.

End Formatter_facts.

(** ** C3 *)

(** Two matches of the template "$1$2?:X", both with an empty capture 2;
    the second's capture 1 is "$$2?:Y", which the index-1 substitution
    turns into a marker "$2?:Y" in front of "$2?:X".  That marker is the
    one found for index 2 in the second match: it is stripped but not
    stored, and both lines use X. *)
Example first_write_wins_two_matches :
  format_all ascii_only ∅ (str "$1$2?:X")
    [[str "m1"; str ""; str ""]; [str "m2"; str "$$2?:Y"; str ""]]
  = (<[2%nat := str "X"]> ∅, [str "X"; str "XX"]).
Proof. reflexivity. Qed.

(** C3: the fallback table lives for the whole run and each index is
    written at most once.  (1) no substitution step changes an existing
    entry; (2) so every entry present before a stretch of matches is
    still there after it; (3) a step for an index that already has an
    entry X and an empty capture leaves the table unchanged, strips every
    marker for that index in the current copy (whatever its literal) and
    substitutes X. *)
Theorem fallback_first_write_wins :
  (forall u fbs i (value r : list rune) j X,
     fbs !! j = Some X -> (format_index u fbs i value r).1 !! j = Some X) /\
  (forall u fbs (fmt : list rune) ms j X,
     fbs !! j = Some X -> (format_all u fbs fmt ms).1 !! j = Some X) /\
  (forall u fbs i (r : list rune) X,
     fbs !! i = Some X ->
     format_index u fbs i [] r =
       (fbs, ReplaceAllString u (rxRepl i) (ReplaceAllString u (rxFallback i) r (str "$1")) X)).
Proof.
  split; [|split].
  - intros u fbs i value r j X. apply format_index_keeps.
  - intros u fbs fmt ms j X. apply format_all_keeps.
  - intros u fbs i r X Hi. unfold format_index.
    rewrite (register_existing u fbs i r X Hi). simpl. by rewrite Hi.
Qed.

(** ** C5 *)

(** C5 (code_bug): the effective value is passed to ReplaceAllString as
    the replacement template, so `$` in it is expanded: a capture
    "p$$q" comes out as "p$q". *)
Theorem placeholder_value_is_template (u : rune -> bool) :
  (format_match u ∅ (str "$1") [str "p$$q"; str "p$$q"]).2 = str "p$q".
Proof. reflexivity. Qed.

(** ** C6 *)

(** C6: the value handed to the `$i` replacement at index [i] is the
    capture itself when it is non-empty, whatever the table holds; for an
    empty capture it is the entry for [i] of the table as it stands after
    this step's registration, or the empty string without one. *)
Theorem effective_value_choice (u : rune -> bool) fbs i (value r : list rune) :
  let fbs1 := (register_fallback u fbs i r).1 in
  format_index u fbs i value r =
    (fbs1, ReplaceAllString u (rxRepl i) (register_fallback u fbs i r).2
             (effective_value fbs1 i value)) /\
  (value <> [] -> effective_value fbs1 i value = value) /\
  (forall x, value = [] -> fbs1 !! i = Some x -> effective_value fbs1 i value = x) /\
  (value = [] -> fbs1 !! i = None -> effective_value fbs1 i value = []).
Proof.
  intros fbs1. split; [|split; [|split]].
  - unfold format_index, fbs1. by destruct (register_fallback u fbs i r).
  - intros Hv. destruct value; [done|reflexivity].
  - intros x -> Hx. simpl. by rewrite Hx.
  - intros -> Hx. simpl. by rewrite Hx.
Qed.

(** ** C7 *)


(** ** Steps over a template with a fixed middle part *)

Lemma find_skip (m : matcher) c (s : list rune) :
  m (c :: s) = None -> FindStringSubmatch m (c :: s) = FindStringSubmatch m s.
Proof. intros H. cbn [FindStringSubmatch]. by rewrite H. Qed.

Lemma replace_skip (u : rune -> bool) (m : matcher) c (s t : list rune) :
  consumes m -> m (c :: s) = None ->
  ReplaceAllString u m (c :: s) t = c :: ReplaceAllString u m s t.
Proof. intros Hc H. rewrite ReplaceAllString_cons by done. by rewrite H. Qed.

Lemma replace_hit (u : rune -> bool) (m : matcher) c (s t : list rune) gs rest :
  consumes m -> m (c :: s) = Some (gs, rest) ->
  ReplaceAllString u m (c :: s) t = Expand u gs t ++ ReplaceAllString u m rest t.
Proof. intros Hc H. rewrite ReplaceAllString_cons by done. by rewrite H. Qed.

Lemma not_dollar_36_free c : fallback_char c = true -> c <> dollar.
Proof. unfold dollar. intros H E. subst c. discriminate. Qed.

Lemma dollar_free_of_run (l : list rune) :
  Forall (fun c => fallback_char c = true) l -> dollar ∉ l.
Proof.
  induction 1 as [|c l Hc _ IH]; [apply not_elem_of_nil|].
  apply not_elem_of_cons. split; [|done]. intros E. apply (not_dollar_36_free c Hc). by symmetry.
Qed.

Lemma backslash_free_of_run (l : list rune) :
  Forall (fun c => fallback_char c = true) l -> backslash ∉ l.
Proof.
  induction 1 as [|c l Hc _ IH]; [apply not_elem_of_nil|].
  apply not_elem_of_cons. split; [|done]. intros E. rewrite <- E in Hc. discriminate.
Qed.

Lemma fallback_tail_run (l post : list rune) :
  Forall (fun c => fallback_char c = true) l -> ends_literal post = true ->
  fallback_tail (l ++ post) = (l, post).
Proof.
  intros Hl Hp. induction Hl as [|c l Hc _ IH].
  - destruct post as [|p post]; [reflexivity|]. simpl in Hp |- *.
    destruct (fallback_char p); [discriminate|].
    destruct (p =? backslash); [discriminate|reflexivity].
  - simpl. rewrite Hc, IH. reflexivity.
Qed.

(** ** C10 *)

(** C10 (counterexample): in the template "$$10" the index-1 step turns
    the "$1" of "$10" into capture 1 followed by "0"; with capture 1 = "1"
    that rebuilds "$10", which the index-10 step replaces by capture 10
    (pattern `(1)()()()()()()()()(Z)` on input "1Z"). *)
Lemma dollar10_rebuilt :
  (format_match ascii_only ∅ (str "$$10")
     [str "1Z"; str "1"; []; []; []; []; []; []; []; []; str "Z"]).2 = str "Z".
Proof. reflexivity. Qed.

(** C10 (amended): around `$10` with no other `$` in the template and an
    index-1 value without `$`, the `$1` prefix of `$10` is replaced by
    index 1's value followed by "0", the table is untouched, and nothing
    of capture 10 (or of any later capture) gets into the line. *)
Theorem dollar10_is_dollar1_then_0 (u : rune -> bool) fbs (pre post w c1 : list rune)
    (rest : list (list rune)) :
  dollar ∉ pre -> dollar ∉ post -> dollar ∉ effective_value fbs 1 c1 ->
  format_match u fbs (pre ++ str "$10" ++ post) (w :: c1 :: rest)
  = (fbs, pre ++ effective_value fbs 1 c1 ++ str "0" ++ post).
Proof.
  intros Hpre Hpost Hv.
  change (str "$10" ++ post) with (36 :: 49 :: 48 :: post).
  change (str "0" ++ post) with (48 :: post).
  assert (Hfb0 : FindStringSubmatch (rxFallback 0) (pre ++ 36 :: 49 :: 48 :: post) = None).
  { rewrite (find_app _ dollar) by (done || apply rxFallback_heads).
    rewrite find_skip by reflexivity.
    rewrite find_skip by (apply (matcher_other _ dollar); [apply rxFallback_heads|discriminate]).
    rewrite find_skip by (apply (matcher_other _ dollar); [apply rxFallback_heads|discriminate]).
    by apply (find_without _ dollar); [apply rxFallback_heads|]. }
  assert (Hr0 : FindStringSubmatch (rxRepl 0) (pre ++ 36 :: 49 :: 48 :: post) = None).
  { rewrite (find_app _ dollar) by (done || apply rxRepl_heads).
    rewrite find_skip by reflexivity.
    rewrite find_skip by (apply (matcher_other _ dollar); [apply rxRepl_heads|discriminate]).
    rewrite find_skip by (apply (matcher_other _ dollar); [apply rxRepl_heads|discriminate]).
    by apply (find_without _ dollar); [apply rxRepl_heads|]. }
  assert (Hfb1 : FindStringSubmatch (rxFallback 1) (pre ++ 36 :: 49 :: 48 :: post) = None).
  { rewrite (find_app _ dollar) by (done || apply rxFallback_heads).
    rewrite find_skip by reflexivity.
    rewrite find_skip by (apply (matcher_other _ dollar); [apply rxFallback_heads|discriminate]).
    rewrite find_skip by (apply (matcher_other _ dollar); [apply rxFallback_heads|discriminate]).
    by apply (find_without _ dollar); [apply rxFallback_heads|]. }
  unfold format_match. cbn [format_groups].
  unfold format_index at 1, register_fallback at 1. rewrite Hfb0.
  rewrite (ReplaceAllString_none u _ _ _ Hr0).
  unfold format_index at 1, register_fallback at 1. rewrite Hfb1.
  rewrite (replace_app u _ dollar) by (done || apply rxRepl_heads || apply rxRepl_consumes).
  rewrite (replace_hit u (rxRepl 1) _ _ _ [Some (placeholder 1)] (48 :: post));
    [|apply rxRepl_consumes|reflexivity].
  rewrite Expand_without by done.
  rewrite (replace_without u _ dollar (48 :: post)) by
    (apply rxRepl_heads || (apply not_elem_of_cons; split; [discriminate|done])).
  rewrite format_groups_without.
  - reflexivity.
  - repeat (apply not_elem_of_app; split); try done.
    apply not_elem_of_cons; split; [discriminate|done].
Qed.

(** ** C4 *)

Lemma chop_prefix_app (p s : list rune) : chop_prefix p (p ++ s) = Some s.
Proof. induction p as [|c p IH]; [reflexivity|]. simpl. by rewrite Z.eqb_refl. Qed.

Lemma find_hit (m : matcher) (s : list rune) gs rest :
  m s = Some (gs, rest) -> FindStringSubmatch m s = Some gs.
Proof. intros H. destruct s; cbn [FindStringSubmatch]; by rewrite H. Qed.

Lemma unescape_run (u : rune -> bool) (l : list rune) :
  Forall (fun c => fallback_char c = true) l -> unescape u l = l.
Proof.
  intros Hl. unfold unescape. apply (replace_without u _ backslash).
  - apply rxEsc_heads.
  - by apply backslash_free_of_run.
Qed.

Lemma rxFallback_run (i : nat) (l post : list rune) :
  l <> [] -> Forall (fun c => fallback_char c = true) l -> ends_literal post = true ->
  rxFallback i (placeholder i ++ [63; 58] ++ l ++ post)
  = Some ([Some (placeholder i ++ [63; 58] ++ l); Some (placeholder i); Some l], post).
Proof.
  intros Hne Hl Hp. destruct l as [|c l]; [done|].
  unfold rxFallback. rewrite app_assoc, chop_prefix_app.
  cbn [app]. cbv beta iota. inversion Hl as [|? ? Hc Hl']; subst. rewrite Hc.
  rewrite (fallback_tail_run l post) by done. reflexivity.
Qed.

Lemma rxFallback1_stop (post : list rune) :
  ends_literal post = true -> rxFallback 1 (36 :: 49 :: post) = None.
Proof.
  intros Hp. destruct post as [|p post]; [reflexivity|].
  unfold ends_literal in Hp. apply negb_true_iff, orb_false_iff in Hp as [_ E].
  unfold rxFallback.
  change (chop_prefix (placeholder 1 ++ [63; 58]) (36 :: 49 :: p :: post))
    with (if 63 =? p then chop_prefix [58] post else None).
  rewrite (Z.eqb_sym 63 p), E. reflexivity.
Qed.

Ltac skip_other H :=
  rewrite find_skip by (apply (matcher_other _ dollar); [apply H|discriminate]).

Ltac step_other H C :=
  rewrite (replace_skip _ _ _ _ _ (C _)) by (apply (matcher_other _ dollar); [apply H|discriminate]).

Lemma elem_of_dollar_free (l r : list rune) : dollar ∉ l -> dollar ∉ r -> dollar ∉ l ++ r.
Proof. intros. apply not_elem_of_app. by split. Qed.

(** C4 (counterexample): with `$2?:$1` in the template and two matches
    whose index-2 capture is empty, the second line shows the first
    match's index-1 text: the table entry for index 2 was fixed by match
    one, so the "already substituted" text of match two is neither
    registered nor shown. *)
Lemma lower_index_fallback_fixed_by_first_match :
  (format_all ascii_only ∅ (str "$2?:$1")
     [[str "a"; str "a"; []]; [str "b"; str "b"; []]]).2 = [str "a"; str "a"].
Proof. reflexivity. Qed.

(** The step behind C4: the marker's text after the index-1 step is
    the index-1 value; the table gains it unless index 2 has an entry. *)
Lemma lower_index_step (u : rune -> bool) fbs (pre post w c1 : list rune)
    (rest : list (list rune)) :
  dollar ∉ pre -> dollar ∉ post -> ends_literal post = true ->
  effective_value fbs 1 c1 <> [] ->
  Forall (fun c => fallback_char c = true) (effective_value fbs 1 c1) ->
  dollar ∉ effective_value
             (match fbs !! 2%nat with
              | Some _ => fbs | None => <[2%nat := effective_value fbs 1 c1]> fbs end) 2 [] ->
  format_match u fbs (pre ++ str "$2?:$1" ++ post) (w :: c1 :: [] :: rest)
  = (match fbs !! 2%nat with
     | Some _ => fbs | None => <[2%nat := effective_value fbs 1 c1]> fbs end,
     pre ++ effective_value
              (match fbs !! 2%nat with
               | Some _ => fbs | None => <[2%nat := effective_value fbs 1 c1]> fbs end) 2 []
         ++ post).
Proof.
  intros Hpre Hpost Hend Hne Hrun Hv2.
  set (v1 := effective_value fbs 1 c1) in *.
  assert (Hv1 : dollar ∉ v1) by (by apply dollar_free_of_run).
  change (str "$2?:$1" ++ post) with (36 :: 50 :: 63 :: 58 :: 36 :: 49 :: post).
  assert (Hfb0 : FindStringSubmatch (rxFallback 0) (pre ++ 36 :: 50 :: 63 :: 58 :: 36 :: 49 :: post) = None).
  { rewrite (find_app _ dollar) by (done || apply rxFallback_heads).
    rewrite find_skip by reflexivity.
    do 3 skip_other rxFallback_heads.
    rewrite find_skip by reflexivity. skip_other rxFallback_heads.
    by apply (find_without _ dollar); [apply rxFallback_heads|]. }
  assert (Hr0 : FindStringSubmatch (rxRepl 0) (pre ++ 36 :: 50 :: 63 :: 58 :: 36 :: 49 :: post) = None).
  { rewrite (find_app _ dollar) by (done || apply rxRepl_heads).
    rewrite find_skip by reflexivity.
    do 3 skip_other rxRepl_heads.
    rewrite find_skip by reflexivity. skip_other rxRepl_heads.
    by apply (find_without _ dollar); [apply rxRepl_heads|]. }
  assert (Hfb1 : FindStringSubmatch (rxFallback 1) (pre ++ 36 :: 50 :: 63 :: 58 :: 36 :: 49 :: post) = None).
  { rewrite (find_app _ dollar) by (done || apply rxFallback_heads).
    rewrite find_skip by reflexivity.
    do 3 skip_other rxFallback_heads.
    rewrite find_skip by (by apply rxFallback1_stop). skip_other rxFallback_heads.
    by apply (find_without _ dollar); [apply rxFallback_heads|]. }
  unfold format_match. cbn [format_groups].
  (* index 0 *)
  unfold format_index at 1, register_fallback at 1. rewrite Hfb0.
  rewrite (ReplaceAllString_none u _ _ _ Hr0).
  (* index 1 *)
  unfold format_index at 1, register_fallback at 1. rewrite Hfb1.
  fold v1.
  rewrite (replace_app u _ dollar) by (done || apply rxRepl_heads || apply rxRepl_consumes).
  rewrite (replace_skip u (rxRepl 1)) by (apply rxRepl_consumes || reflexivity).
  do 3 step_other rxRepl_heads rxRepl_consumes.
  rewrite (replace_hit u (rxRepl 1) _ _ _ [Some (placeholder 1)] post);
    [|apply rxRepl_consumes|reflexivity].
  rewrite Expand_without by done.
  rewrite (replace_without u _ dollar post) by (done || apply rxRepl_heads).
  (* index 2 *)
  set (M := 36 :: 50 :: 63 :: 58 :: v1 ++ post).
  assert (HM : rxFallback 2 M
               = Some ([Some (placeholder 2 ++ [63; 58] ++ v1); Some (placeholder 2); Some v1], post))
    by (apply (rxFallback_run 2 v1 post); done).
  unfold format_index at 1, register_fallback at 1.
  rewrite (find_app _ dollar) by (done || apply rxFallback_heads).
  rewrite (find_hit _ _ _ _ HM). cbn [length Nat.ltb Nat.leb].
  unfold group_text. cbn [nth_error]. rewrite (unescape_run u v1 Hrun).
  set (fbs2 := match fbs !! 2%nat with Some _ => fbs | None => <[2%nat := v1]> fbs end) in *.
  rewrite (replace_app u _ dollar) by (done || apply rxFallback_heads || apply rxFallback_consumes).
  unfold M. rewrite (replace_hit u (rxFallback 2) _ _ _ _ _ (rxFallback_consumes 2) HM).
  rewrite (replace_without u _ dollar post) by (done || apply rxFallback_heads).
  change (Expand u [Some (placeholder 2 ++ [63; 58] ++ v1); Some (placeholder 2); Some v1] (str "$1"))
    with (placeholder 2).
  rewrite (replace_app u _ dollar) by (done || apply rxRepl_heads || apply rxRepl_consumes).
  change (placeholder 2 ++ post) with (36 :: 50 :: post).
  rewrite (replace_hit u (rxRepl 2) _ _ _ [Some (placeholder 2)] post);
    [|apply rxRepl_consumes|reflexivity].
  rewrite Expand_without by done.
  rewrite (replace_without u _ dollar post) by (done || apply rxRepl_heads).
  (* the remaining indices *)
  rewrite format_groups_without; [reflexivity|].
  repeat apply elem_of_dollar_free; done.
Qed.

(** C4 (amended): take a template `pre $2?:$1 post` with no other `$`,
    where [post] is empty or starts with a character other than a letter,
    digit, `-`, `_`, backslash or `?`; index 1's effective value [v1] is
    a non-empty run of letters, digits, `-` and `_`, and capture 2 is
    empty.  (1) When index 2 has no table entry yet, the pass registers
    [v1] for index 2 and the line is `pre v1 post`.  (2) When index 2
    already has an entry [X] (with no `$`), the table is unchanged and
    the line is `pre X post`: the marker is stripped and its text, the
    index-1 text of this match, is not used. *)
Theorem lower_index_fallback (u : rune -> bool) fbs (pre post w c1 : list rune)
    (rest : list (list rune)) :
  dollar ∉ pre -> dollar ∉ post -> ends_literal post = true ->
  effective_value fbs 1 c1 <> [] ->
  Forall (fun c => fallback_char c = true) (effective_value fbs 1 c1) ->
  (fbs !! 2%nat = None ->
   format_match u fbs (pre ++ str "$2?:$1" ++ post) (w :: c1 :: [] :: rest)
   = (<[2%nat := effective_value fbs 1 c1]> fbs, pre ++ effective_value fbs 1 c1 ++ post)) /\
  (forall X, fbs !! 2%nat = Some X -> dollar ∉ X ->
   format_match u fbs (pre ++ str "$2?:$1" ++ post) (w :: c1 :: [] :: rest)
   = (fbs, pre ++ X ++ post)).
Proof.
  intros Hpre Hpost Hend Hne Hrun. split.
  - intros H2. rewrite lower_index_step by (try done; rewrite H2; unfold effective_value;
      rewrite lookup_insert_eq; by apply dollar_free_of_run).
    rewrite H2. unfold effective_value at 2. by rewrite lookup_insert_eq.
  - intros X H2 HX. rewrite lower_index_step by (try done; rewrite H2; simpl; by rewrite H2).
    rewrite H2. simpl. by rewrite H2.
Qed.

Lemma lower_index_fallback_witness :
  format_match ascii_only ∅ (str "<" ++ str "$2?:$1" ++ str " >") [str "ab"; str "ab"; []]
  = (<[2%nat := effective_value ∅ 1 (str "ab")]> ∅,
     str "<" ++ effective_value ∅ 1 (str "ab") ++ str " >") /\
  format_match ascii_only (<[2%nat := str "k"]> ∅) (str "<" ++ str "$2?:$1" ++ str " >")
    [str "ab"; str "ab"; []]
  = (<[2%nat := str "k"]> ∅, str "<" ++ str "k" ++ str " >").
Proof.
  split.
  - apply (lower_index_fallback ascii_only ∅ (str "<") (str " >") (str "ab") (str "ab") []).
    + by apply (bool_decide_unpack _); vm_compute.
    + by apply (bool_decide_unpack _); vm_compute.
    + reflexivity.
    + vm_compute. discriminate.
    + vm_compute. repeat constructor.
    + reflexivity.
  - apply (lower_index_fallback ascii_only (<[2%nat := str "k"]> ∅) (str "<") (str " >")
             (str "ab") (str "ab") []).
    + by apply (bool_decide_unpack _); vm_compute.
    + by apply (bool_decide_unpack _); vm_compute.
    + reflexivity.
    + vm_compute. discriminate.
    + vm_compute. repeat constructor.
    + reflexivity.
    + by apply (bool_decide_unpack _); vm_compute.
Defined.

Lemma dollar10_is_dollar1_then_0_witness :
  format_match ascii_only ∅ (str "<" ++ str "$10" ++ str ">")
    [str "xZ"; str "x"; []; []; []; []; []; []; []; []; str "Z"]
  = (∅, str "<" ++ effective_value ∅ 1 (str "x") ++ str "0" ++ str ">").
Proof.
  apply dollar10_is_dollar1_then_0.
  - by apply (bool_decide_unpack _); vm_compute.
  - by apply (bool_decide_unpack _); vm_compute.
  - by apply (bool_decide_unpack _); vm_compute.
Defined.

(** ** C2 *)

(** C2: a literal that starts with an escape is not a fallback marker.
    The group `([-_A-Za-z0-9]((\\.)+)?)+` needs a letter, digit, `-` or
    `_` before any escape, so in the template `$1?:\.x` nothing is
    registered or stripped, and with an empty capture 1 the line is
    `?:\.x` (the `$1` replaced by the empty string), not `.x`. *)
Theorem escape_first_not_a_marker (u : rune -> bool) :
  format_match u ∅ (str "$1?:\.x") [str "a"; []] = (∅, str "?:\.x").
Proof. reflexivity. Qed.

(** ** C8 and C9 *)

Lemma leb_1_false (n : nat) : (2 <= n)%nat -> (n <=? 1)%nat = false.
Proof. intros H. apply Nat.leb_gt. lia. Qed.

Lemma ltb_3_false (n : nat) : (n <= 3)%nat -> (3 <? n)%nat = false.
Proof. intros H. apply Nat.ltb_ge. lia. Qed.

(** C8: when the argument splits into 2 or 3 parts, the pattern compiles
    and the matcher finds no match on stdin, the run ends with exit
    status 1 and no formatted line: the only thing printed is the message
    `No matches found` (exitWithError writes it to stdout). *)
Theorem no_matches_is_fatal (u : rune -> bool) (regexp : Type) (Compile : list Z -> option regexp)
    (FindAllSubmatch : regexp -> list Z -> list (list (list rune))) (helpPage : list rune)
    (arg : list Z) (rest : list (list Z)) (input : list Z) (parts : list (list Z)) (rx : regexp) :
  split arg = Some parts -> (2 <= length parts <= 3)%nat ->
  Compile (full_pattern parts) = Some rx -> FindAllSubmatch rx input = [] ->
  xo_main u regexp Compile FindAllSubmatch (Some helpPage) (arg :: rest) false input
  = {| stdout := [str "No matches found"]; stderr := []; exit_code := 1 |}.
Proof.
  intros Hs [Hlo Hhi] Hc Hf. unfold xo_main. rewrite Hs.
  rewrite (leb_1_false _ Hlo), (ltb_3_false _ Hhi), Hc, Hf. reflexivity.
Qed.

Lemma no_matches_is_fatal_witness :
  xo_main ascii_only unit (fun _ => Some tt) (fun _ _ => []) (Some (str "usage"))
    [str "/abc/x/"] false (str "xyz")
  = {| stdout := [str "No matches found"]; stderr := []; exit_code := 1 |}.
Proof.
  apply (no_matches_is_fatal _ _ _ _ _ _ _ _ [str "abc"; str "x"] tt).
  - reflexivity.
  - simpl. lia.
  - reflexivity.
  - reflexivity.
Defined.

(** C9: once stdin is not a terminal, the argument is checked before the
    pattern is compiled or run: invalid UTF-8, a split into 0 or 1 parts
    and a split into more than 3 parts each end the run with exit status 1,
    the error message as the only line printed and nothing formatted,
    whatever the regexp engine and the input. *)
Theorem argument_validation_is_fatal (u : rune -> bool) (regexp : Type)
    (Compile : list Z -> option regexp)
    (FindAllSubmatch : regexp -> list Z -> list (list (list rune))) (helpPage : list rune)
    (arg : list Z) (rest : list (list Z)) (input : list Z) :
  (ValidString arg = false ->
   xo_main u regexp Compile FindAllSubmatch (Some helpPage) (arg :: rest) false input
   = {| stdout := [str "Invalid argument string"]; stderr := []; exit_code := 1 |}) /\
  (forall parts, split arg = Some parts -> (length parts <= 1)%nat ->
   xo_main u regexp Compile FindAllSubmatch (Some helpPage) (arg :: rest) false input
   = {| stdout := [str "No pattern or formatter specified"]; stderr := []; exit_code := 1 |}) /\
  (forall parts, split arg = Some parts -> (3 < length parts)%nat ->
   xo_main u regexp Compile FindAllSubmatch (Some helpPage) (arg :: rest) false input
   = {| stdout := [str "Extra delimiter detected (maybe try one other than `/`)"];
        stderr := []; exit_code := 1 |}).
Proof.
  split; [|split].
  - intros Hv. unfold xo_main, split. rewrite Hv. reflexivity.
  - intros parts Hs Hl. unfold xo_main. rewrite Hs.
    apply Nat.leb_le in Hl. rewrite Hl. reflexivity.
  - intros parts Hs Hl. unfold xo_main. rewrite Hs.
    rewrite (leb_1_false (length parts)) by lia.
    apply Nat.ltb_lt in Hl. rewrite Hl. reflexivity.
Qed.

Lemma argument_validation_is_fatal_witness :
  xo_main ascii_only unit (fun _ => Some tt) (fun _ _ => []) (Some (str "usage"))
    [[255; 47]] false [] = {| stdout := [str "Invalid argument string"]; stderr := []; exit_code := 1 |} /\
  xo_main ascii_only unit (fun _ => Some tt) (fun _ _ => []) (Some (str "usage"))
    [str "/abc/"] false [] = {| stdout := [str "No pattern or formatter specified"]; stderr := []; exit_code := 1 |} /\
  xo_main ascii_only unit (fun _ => Some tt) (fun _ _ => []) (Some (str "usage"))
    [str "/a/b/c/d/"] false []
  = {| stdout := [str "Extra delimiter detected (maybe try one other than `/`)"]; stderr := []; exit_code := 1 |}.
Proof.
  destruct (argument_validation_is_fatal ascii_only unit (fun _ => Some tt) (fun _ _ => [])
              (str "usage") [255; 47] [] []) as [A _].
  destruct (argument_validation_is_fatal ascii_only unit (fun _ => Some tt) (fun _ _ => [])
              (str "usage") (str "/abc/") [] []) as [_ [B _]].
  destruct (argument_validation_is_fatal ascii_only unit (fun _ => Some tt) (fun _ _ => [])
              (str "usage") (str "/a/b/c/d/") [] []) as [_ [_ C]].
  split; [|split].
  - apply A. reflexivity.
  - apply (B [str "abc"]); [reflexivity|simpl; lia].
  - apply (C [str "a"; str "b"; str "c"; str "d"]); [reflexivity|simpl; lia].
Defined.

(* ================================================================== *)
(** * UTF-8 round trips *)

Lemma lor_disjoint x y n :
  0 <= n -> x mod 2 ^ n = 0 -> 0 <= y < 2 ^ n -> Z.lor x y = x + y.
Proof.
  intros Hn Hx Hy.
  assert (Hl : Z.land x y = 0).
  { apply Z.bits_inj_0. intros m. rewrite Z.land_spec.
    destruct (Z.lt_ge_cases m n) as [Hm|Hm].
    - rewrite <- (Z.mod_pow2_bits_low x n m Hm), Hx, Z.bits_0. reflexivity.
    - rewrite <- (Z.mod_small y (2 ^ n)) by lia.
      rewrite Z.mod_pow2_bits_high by lia. apply andb_false_r. }
  rewrite <- Z.lxor_lor by done. symmetry. by apply Z.add_nocarry_lxor.
Qed.

Lemma land_7 a : Z.land a 7 = a mod 8.
Proof. change 7 with (Z.ones 3). by rewrite Z.land_ones by lia. Qed.
Lemma land_15 a : Z.land a 15 = a mod 16.
Proof. change 15 with (Z.ones 4). by rewrite Z.land_ones by lia. Qed.
Lemma land_31 a : Z.land a 31 = a mod 32.
Proof. change 31 with (Z.ones 5). by rewrite Z.land_ones by lia. Qed.
Lemma land_63 a : Z.land a 63 = a mod 64.
Proof. change 63 with (Z.ones 6). by rewrite Z.land_ones by lia. Qed.

Lemma shiftr_div a n : 0 <= n -> Z.shiftr a n = a / 2 ^ n.
Proof. apply Z.shiftr_div_pow2. Qed.
Lemma shiftl_mul a n : 0 <= n -> Z.shiftl a n = a * 2 ^ n.
Proof. apply Z.shiftl_mul_pow2. Qed.

Lemma lor_const c y n : 0 <= n -> c mod 2 ^ n = 0 -> 0 <= y < 2 ^ n -> Z.lor c y = c + y.
Proof. apply lor_disjoint. Qed.

Lemma EncodeRune_1 r : 0 <= r < 128 -> EncodeRune r = [r].
Proof.
  intros H. unfold EncodeRune.
  replace ((0 <=? r) && (r <? 128)) with true by (symmetry; apply andb_true_iff; lia).
  reflexivity.
Qed.

Lemma EncodeRune_2 r : 128 <= r < 2048 -> EncodeRune r = [192 + r / 64; 128 + r mod 64].
Proof.
  intros H. unfold EncodeRune.
  replace ((0 <=? r) && (r <? 128)) with false by (symmetry; apply andb_false_iff; lia).
  replace ((0 <=? r) && (r <? 2048)) with true by (symmetry; apply andb_true_iff; lia).
  rewrite land_63, (shiftr_div r 6) by lia.
  rewrite (lor_const 192 _ 6), (lor_const 128 _ 6);
    try reflexivity; try lia; Z.div_mod_to_equations; lia.
Qed.

Lemma EncodeRune_3 r : 2048 <= r < 65536 -> ValidRune r = true ->
  EncodeRune r = [224 + r / 4096; 128 + (r / 64) mod 64; 128 + r mod 64].
Proof.
  intros H Hv. unfold ValidRune in Hv. unfold EncodeRune.
  replace ((0 <=? r) && (r <? 128)) with false by (symmetry; apply andb_false_iff; lia).
  replace ((0 <=? r) && (r <? 2048)) with false by (symmetry; apply andb_false_iff; lia).
  replace ((r <? 0) || (MaxRune <? r) || ((55296 <=? r) && (r <=? 57343))) with false.
  2:{ unfold MaxRune in *. symmetry.
      destruct (Z.ltb_spec r 0), (Z.ltb_spec 1114111 r), (Z.leb_spec 55296 r),
        (Z.leb_spec r 57343), (Z.leb_spec 0 r), (Z.ltb_spec r 55296), (Z.ltb_spec 57343 r);
        simpl in *; try lia; try discriminate; reflexivity. }
  replace (r <? 65536) with true by (symmetry; apply Z.ltb_lt; lia).
  rewrite !land_63, (shiftr_div r 12), (shiftr_div r 6) by lia.
  rewrite (lor_const 224 _ 4), !(lor_const 128 _ 6);
    try reflexivity; try lia; Z.div_mod_to_equations; lia.
Qed.

Lemma EncodeRune_4 r : 65536 <= r <= MaxRune ->
  EncodeRune r =
  [240 + r / 262144; 128 + (r / 4096) mod 64; 128 + (r / 64) mod 64; 128 + r mod 64].
Proof.
  intros H. unfold MaxRune in H. unfold EncodeRune.
  replace ((0 <=? r) && (r <? 128)) with false by (symmetry; apply andb_false_iff; lia).
  replace ((0 <=? r) && (r <? 2048)) with false by (symmetry; apply andb_false_iff; lia).
  replace ((r <? 0) || (MaxRune <? r) || ((55296 <=? r) && (r <=? 57343))) with false.
  2:{ unfold MaxRune. symmetry.
      destruct (Z.ltb_spec r 0), (Z.ltb_spec 1114111 r), (Z.leb_spec 55296 r),
        (Z.leb_spec r 57343); simpl; try lia; reflexivity. }
  replace (r <? 65536) with false by (symmetry; apply Z.ltb_ge; lia).
  rewrite !land_63, (shiftr_div r 18), (shiftr_div r 12), (shiftr_div r 6) by lia.
  rewrite (lor_const 240 _ 3), !(lor_const 128 _ 6);
    try reflexivity; try lia; Z.div_mod_to_equations; lia.
Qed.

Ltac zcase :=
  match goal with
  | |- context [Z.ltb ?x ?y] => destruct (Z.ltb_spec x y)
  | |- context [Z.leb ?x ?y] => destruct (Z.leb_spec x y)
  | |- context [Z.eqb ?x ?y] => destruct (Z.eqb_spec x y)
  | H : context [Z.ltb ?x ?y] |- _ => destruct (Z.ltb_spec x y)
  | H : context [Z.leb ?x ?y] |- _ => destruct (Z.leb_spec x y)
  | H : context [Z.eqb ?x ?y] |- _ => destruct (Z.eqb_spec x y)
  end; cbn [andb orb negb Nat.eqb] in *.

Ltac zcases := repeat (zcase; try (exfalso; lia); try discriminate).

Lemma EncodeRune_bad r : ValidRune r = false -> EncodeRune r = [239; 191; 189].
Proof.
  intros Hv. unfold ValidRune, EncodeRune, MaxRune, RuneError in *. zcases.
  all: reflexivity.
Qed.

Ltac pow_lits :=
  change (2 ^ 3) with 8 in *; change (2 ^ 4) with 16 in *; change (2 ^ 6) with 64 in *;
  change (2 ^ 12) with 4096 in *; change (2 ^ 18) with 262144 in *.

Lemma decode2_bits b0 b1 :
  Z.lor (Z.shiftl (Z.land b0 31) 6) (Z.land b1 63) = (b0 mod 32) * 64 + b1 mod 64.
Proof.
  rewrite land_31, land_63, (shiftl_mul _ 6) by lia.
  apply (lor_disjoint _ _ 6); [lia| |]; pow_lits; Z.div_mod_to_equations; lia.
Qed.

Lemma decode3_bits b0 b1 b2 :
  Z.lor (Z.lor (Z.shiftl (Z.land b0 15) 12) (Z.shiftl (Z.land b1 63) 6)) (Z.land b2 63)
  = (b0 mod 16) * 4096 + (b1 mod 64) * 64 + b2 mod 64.
Proof.
  rewrite land_15, !land_63, (shiftl_mul _ 12), (shiftl_mul _ 6) by lia.
  rewrite (lor_disjoint (b0 mod 16 * 2 ^ 12) (b1 mod 64 * 2 ^ 6) 12);
    [|lia|pow_lits; Z.div_mod_to_equations; lia|pow_lits; Z.div_mod_to_equations; lia].
  rewrite (lor_disjoint _ (b2 mod 64) 6);
    [pow_lits; lia|lia|pow_lits; Z.div_mod_to_equations; lia|pow_lits; Z.div_mod_to_equations; lia].
Qed.

Lemma decode4_bits b0 b1 b2 b3 :
  Z.lor (Z.lor (Z.lor (Z.shiftl (Z.land b0 7) 18) (Z.shiftl (Z.land b1 63) 12))
               (Z.shiftl (Z.land b2 63) 6)) (Z.land b3 63)
  = (b0 mod 8) * 262144 + (b1 mod 64) * 4096 + (b2 mod 64) * 64 + b3 mod 64.
Proof.
  rewrite land_7, !land_63, (shiftl_mul _ 18), (shiftl_mul _ 12), (shiftl_mul _ 6) by lia.
  rewrite (lor_disjoint (b0 mod 8 * 2 ^ 18) (b1 mod 64 * 2 ^ 12) 18);
    [|lia|pow_lits; Z.div_mod_to_equations; lia|pow_lits; Z.div_mod_to_equations; lia].
  rewrite (lor_disjoint _ (b2 mod 64 * 2 ^ 6) 12);
    [|lia|pow_lits; Z.div_mod_to_equations; lia|pow_lits; Z.div_mod_to_equations; lia].
  rewrite (lor_disjoint _ (b3 mod 64) 6);
    [pow_lits; lia|lia|pow_lits; Z.div_mod_to_equations; lia|pow_lits; Z.div_mod_to_equations; lia].
Qed.

Lemma DecodeRuneInString_EncodeRune r s :
  DecodeRuneInString (EncodeRune r ++ s)
  = (if ValidRune r then r else RuneError, length (EncodeRune r)).
Proof.
  destruct (ValidRune r) eqn:Hv.
  2:{ rewrite EncodeRune_bad by done. reflexivity. }
  assert (Hr := Hv). unfold ValidRune, MaxRune in Hr.
  destruct (Z.ltb_spec r 128) as [H1|H1].
  { rewrite EncodeRune_1 by (zcases; lia). cbn [app length]. unfold DecodeRuneInString.
    replace (r <? 128) with true by (symmetry; apply Z.ltb_lt; lia). reflexivity. }
  destruct (Z.ltb_spec r 2048) as [H2|H2].
  { rewrite EncodeRune_2 by (zcases; lia). cbn [app length].
    assert (E : r = 64 * (r / 64) + r mod 64) by (apply Z.div_mod; lia).
    assert (Ht := Z.mod_pos_bound r 64 ltac:(lia)).
    set (q := r / 64) in *. set (t := r mod 64) in *. clearbody q t.
    unfold DecodeRuneInString, first_class, is_cont. rewrite decode2_bits.
    zcases. f_equal. Z.div_mod_to_equations. lia. }
  destruct (Z.ltb_spec r 65536) as [H3|H3].
  { rewrite EncodeRune_3 by (done || lia). cbn [app length].
    assert (E : r = 4096 * (r / 4096) + 64 * ((r / 64) mod 64) + r mod 64)
      by (Z.div_mod_to_equations; lia).
    assert (Hb := Z.mod_pos_bound (r / 64) 64 ltac:(lia)).
    assert (Hc := Z.mod_pos_bound r 64 ltac:(lia)).
    set (a := r / 4096) in *. set (b := (r / 64) mod 64) in *. set (c := r mod 64) in *.
    clearbody a b c.
    unfold DecodeRuneInString, first_class, is_cont. rewrite decode3_bits.
    unfold RuneError. zcases. all: f_equal; Z.div_mod_to_equations; lia. }
  { rewrite EncodeRune_4 by (unfold MaxRune; zcases; lia). cbn [app length].
    assert (E : r = 262144 * (r / 262144) + 4096 * ((r / 4096) mod 64)
                    + 64 * ((r / 64) mod 64) + r mod 64)
      by (Z.div_mod_to_equations; lia).
    assert (Hb := Z.mod_pos_bound (r / 4096) 64 ltac:(lia)).
    assert (Hc := Z.mod_pos_bound (r / 64) 64 ltac:(lia)).
    assert (Hd := Z.mod_pos_bound r 64 ltac:(lia)).
    set (a := r / 262144) in *. set (b := (r / 4096) mod 64) in *.
    set (c := (r / 64) mod 64) in *. set (d := r mod 64) in *.
    clearbody a b c d.
    unfold DecodeRuneInString, first_class, is_cont. rewrite decode4_bits.
    unfold RuneError. zcases. all: f_equal; Z.div_mod_to_equations; lia. }
Qed.

Lemma EncodeRune_DecodeRuneInString (s : list Z) r n :
  Forall (fun b => 0 <= b < 256) s -> s <> [] -> DecodeRuneInString s = (r, n) ->
  ~ (r = RuneError /\ n = 1%nat) -> EncodeRune r ++ drop n s = s.
Proof.
  intros Hb Hs H Hn. destruct s as [|b0 s1]; [done|]. apply Forall_cons in Hb as [Hb0 Hb].
  unfold DecodeRuneInString, first_class, is_cont in H.
  destruct s1 as [|b1 [|b2 [|b3 s4]]]; zcases;
    injection H as <- <-; try (exfalso; apply Hn; split; reflexivity).
  all: try (rewrite EncodeRune_1 by lia; reflexivity).
  all: try (rewrite decode2_bits, EncodeRune_2 by (Z.div_mod_to_equations; lia);
            cbn [drop app]; repeat f_equal; Z.div_mod_to_equations; lia).
  all: try (rewrite decode3_bits, EncodeRune_3;
            [cbn [drop app]; repeat f_equal; Z.div_mod_to_equations; lia
            |Z.div_mod_to_equations; lia
            |unfold ValidRune, MaxRune; zcases; Z.div_mod_to_equations; lia]).
  all: try (rewrite decode4_bits, EncodeRune_4;
            [cbn [drop app]; repeat f_equal; Z.div_mod_to_equations; lia
            |unfold MaxRune; Z.div_mod_to_equations; lia]).
Qed.

Lemma valid_fuel_enough (f : nat) (s : list Z) :
  (length s <= f)%nat -> valid_fuel f s = ValidString s.
Proof.
  unfold ValidString.
  assert (H : forall f1 f2 (s : list Z), (length s <= f1)%nat -> (length s <= f2)%nat ->
            valid_fuel f1 s = valid_fuel f2 s).
  { induction f1 as [|f1 IH]; intros f2 s' H1 H2.
    - destruct s'; [|simpl in H1; lia]. destruct f2; reflexivity.
    - destruct s' as [|b s'']; [destruct f2; reflexivity|].
      destruct f2 as [|f2]; [simpl in H2; lia|].
      cbn -[DecodeRuneInString]. destruct (DecodeRuneInString (b :: s'')) as [r n] eqn:E.
      pose proof (DecodeRuneInString_width (b :: s'') ltac:(discriminate)) as W.
      rewrite E in W. simpl in W, H1, H2.
      destruct ((r =? RuneError) && (n =? 1)%nat); [reflexivity|].
      apply IH; rewrite length_drop; simpl; lia. }
  intros Hf. apply H; lia.
Qed.

Lemma ValidString_cons (s : list Z) r n :
  s <> [] -> DecodeRuneInString s = (r, n) ->
  ValidString s = negb ((r =? RuneError) && (n =? 1)%nat) && ValidString (drop n s).
Proof.
  intros Hs E. pose proof (DecodeRuneInString_width s Hs) as W. rewrite E in W. simpl in W.
  destruct s as [|b s']; [congruence|].
  unfold ValidString at 1. cbn -[DecodeRuneInString]. rewrite E.
  destruct ((r =? RuneError) && (n =? 1)%nat); [reflexivity|].
  apply valid_fuel_enough. rewrite length_drop. simpl in *. lia.
Qed.

Lemma EncodeRune_length_1 r : length (EncodeRune r) = 1%nat -> 0 <= r < 128.
Proof.
  unfold EncodeRune. zcases; try (simpl; lia). all: intros H; discriminate H.
Qed.

(** Every rune list encodes to valid UTF-8; decoding gives back the runes,
    each invalid one read as U+FFFD. *)
Lemma ValidString_encode_runes (rs : list rune) : ValidString (encode_runes rs) = true.
Proof.
  induction rs as [|r rs IH]; [reflexivity|].
  change (encode_runes (r :: rs)) with (EncodeRune r ++ encode_runes rs).
  rewrite (ValidString_cons _ (if ValidRune r then r else RuneError) (length (EncodeRune r))).
  - rewrite drop_app_length, IH, andb_true_r.
    destruct (ValidRune r) eqn:Hv.
    + destruct (Z.eqb_spec r RuneError) as [->|]; [reflexivity|reflexivity].
    + rewrite EncodeRune_bad by done. reflexivity.
  - intros E. apply app_eq_nil in E as [E _]. by apply EncodeRune_not_nil in E.
  - apply DecodeRuneInString_EncodeRune.
Qed.

Lemma decode_all_encode_runes (rs : list rune) :
  decode_all (encode_runes rs) = map (fun r => if ValidRune r then r else RuneError) rs.
Proof.
  induction rs as [|r rs IH]; [reflexivity|].
  change (encode_runes (r :: rs)) with (EncodeRune r ++ encode_runes rs).
  assert (Hne : EncodeRune r ++ encode_runes rs <> []).
  { intros E. apply app_eq_nil in E as [E _]. by apply EncodeRune_not_nil in E. }
  rewrite (decode_all_cons _ _ _ Hne (DecodeRuneInString_EncodeRune r (encode_runes rs))).
  rewrite drop_app_length, IH. reflexivity.
Qed.

Lemma encode_runes_decode_all (s : list Z) :
  Forall (fun b => 0 <= b < 256) s -> ValidString s = true -> encode_runes (decode_all s) = s.
Proof.
  induction s as [s IH] using (well_founded_induction (Wf_nat.well_founded_ltof _ (@length Z))).
  unfold Wf_nat.ltof in IH. intros Hb Hv.
  destruct s as [|b s']; [reflexivity|].
  assert (Hs : b :: s' <> []) by discriminate.
  destruct (DecodeRuneInString (b :: s')) as [r n] eqn:E.
  pose proof (DecodeRuneInString_width _ Hs) as W. rewrite E in W. simpl in W.
  rewrite (ValidString_cons _ r n Hs E) in Hv. apply andb_true_iff in Hv as [Hok Hrest].
  assert (Hn : ~ (r = RuneError /\ n = 1%nat)).
  { intros [-> ->]. rewrite Z.eqb_refl in Hok. discriminate. }
  rewrite (decode_all_cons _ r n Hs E).
  change (encode_runes (r :: decode_all (drop n (b :: s'))))
    with (EncodeRune r ++ encode_runes (decode_all (drop n (b :: s')))).
  rewrite IH; [by apply (EncodeRune_DecodeRuneInString _ r n)| | |done].
  - rewrite length_drop. simpl in *. lia.
  - by apply Forall_drop.
Qed.

(* ------------------------------------------------------------------ *)
(** * split (src/xo.go): what every success returns *)

Lemma split_as_runes (s : list Z) parts :
  split s = Some parts ->
  ValidString s = true /\
  exists delim size, DecodeRuneInString s = (delim, size) /\ (size <= length s)%nat /\
    parts = map encode_runes (split_runes delim (decode_all (drop size s)) [] []).
Proof.
  unfold split. destruct (ValidString s) eqn:Hv; [|discriminate].
  destruct (DecodeRuneInString s) as [delim size] eqn:E. intros H.
  assert (Hp : Some (split_loop (S (length s)) delim (drop size s) [] []) = Some parts)
    by exact H.
  assert (Hq : parts = split_loop (S (length s)) delim (drop size s) [] []) by congruence.
  clear H Hp. subst parts.
  assert (Hw : (size <= length s)%nat).
  { destruct s as [|b s0]; [simpl in E; injection E as _ <-; simpl; lia|].
    pose proof (DecodeRuneInString_width (b :: s0) ltac:(discriminate)) as W.
    rewrite E in W. simpl in *. lia. }
  split; [done|]. exists delim, size. split; [done|]. split; [done|].
  apply split_loop_runes; [rewrite length_drop; lia|done|done].
Qed.

Lemma split_runes_nonempty (delim : rune) :
  forall n (rs : list rune) B S, (length rs <= n)%nat ->
  Forall (fun p => p <> []) S -> Forall (fun p => p <> []) (split_runes delim rs B S).
Proof.
  induction n as [|n IH]; intros rs B S Hn HS.
  { destruct rs; [|simpl in Hn; lia]. simpl.
    destruct (decide (B = [])); [done|]. apply Forall_app; split; [done|by constructor]. }
  destruct rs as [|r [|p rs]].
  - apply (IH [] B S); [simpl; lia|done].
  - rewrite split_runes_one.
    destruct ((r =? backslash) && (RuneError =? delim)).
    + apply Forall_app; split; [done|]. constructor; [|done].
      intros E. apply app_eq_nil in E as [_ E]. discriminate.
    + destruct (r =? delim); [destruct (decide (B = []))|];
        (apply IH; [simpl; lia|]); try done.
      apply Forall_app; split; [done|by constructor].
  - rewrite split_runes_two. simpl in Hn.
    destruct ((r =? backslash) && (p =? delim)); [apply IH; [lia|done]|].
    destruct (r =? delim); [destruct (decide (B = []))|];
      (apply IH; [simpl; lia|]); try done.
    apply Forall_app; split; [done|by constructor].
Qed.

Lemma split_runes_repeat (d : rune) (n : nat) subs :
  d <> backslash -> split_runes d (repeat d n) [] subs = subs.
Proof.
  intros Hd. apply Z.eqb_neq in Hd.
  induction n as [|[|m] IH]; [reflexivity| |].
  - change (repeat d 1) with [d]. rewrite split_runes_one, Hd, Z.eqb_refl. reflexivity.
  - change (repeat d (S (S m))) with (d :: d :: repeat d m).
    rewrite split_runes_two, Hd, Z.eqb_refl. simpl andb. cbv iota.
    rewrite decide_True by done. exact IH.
Qed.

Lemma DecodeRuneInString_ascii (b : Z) (s : list Z) :
  0 <= b < 128 -> DecodeRuneInString (b :: s) = (b, 1%nat).
Proof. intros Hb. unfold DecodeRuneInString. destruct (Z.ltb_spec b 128); [done|lia]. Qed.

Lemma split_unfold (s : list Z) delim size :
  ValidString s = true -> DecodeRuneInString s = (delim, size) ->
  split s = Some (split_loop (S (length s)) delim (drop size s) [] []).
Proof. intros Hv E. unfold split. rewrite Hv, E. reflexivity. Qed.

Lemma split_encode_repeat (d : rune) (n : nat) :
  d <> backslash -> split (encode_runes (repeat d n)) = Some [].
Proof.
  intros Hd. destruct n as [|m]; [reflexivity|].
  change (repeat d (S m)) with (d :: repeat d m).
  rewrite (split_unfold _ _ _ (ValidString_encode_runes (d :: repeat d m))
             (DecodeRuneInString_EncodeRune d (encode_runes (repeat d m)))).
  rewrite (split_loop_runes _ _ _ [] [] [] []); [|rewrite length_drop; lia|done|done].
  change (encode_runes (d :: repeat d m)) with (EncodeRune d ++ encode_runes (repeat d m)).
  rewrite drop_app_length, decode_all_encode_runes, map_repeat.
  rewrite split_runes_repeat; [reflexivity|].
  destruct (ValidRune d); [done|]. unfold RuneError, backslash. lia.
Qed.

(** ** X: the components of a successful split *)

(** Every component that split returns is non-empty and valid UTF-8:
    empty pieces between delimiters are dropped, and each piece is
    written rune by rune into the buffer. *)
Theorem split_components_nonempty_valid (s : list Z) parts :
  split s = Some parts -> Forall (fun p => p <> [] /\ ValidString p = true) parts.
Proof.
  intros H. apply split_as_runes in H as [_ [delim [size [_ [_ ->]]]]].
  pose proof (split_runes_nonempty delim _ (decode_all (drop size s)) [] [] (le_n _)
                (Forall_nil_2 _)) as Hn.
  apply Forall_map. eapply Forall_impl; [exact Hn|]. intros p Hp. split.
  - intros E. apply Hp. by apply encode_runes_nil_iff.
  - apply ValidString_encode_runes.
Qed.

Lemma split_components_nonempty_valid_witness :
  split (str "/a//b/") = Some [str "a"; str "b"] /\
  Forall (fun p => p <> [] /\ ValidString p = true) [str "a"; str "b"].
Proof.
  assert (E : split (str "/a//b/") = Some [str "a"; str "b"]) by reflexivity.
  split; [exact E|]. exact (split_components_nonempty_valid _ _ E).
Defined.

(** ** X: an argument of delimiters only *)

(** An argument made of nothing but copies of its delimiter (none at all
    being the empty argument) splits into no component, and main stops
    with `No pattern or formatter specified`; a backslash is excluded, as
    two backslashes read as an escaped delimiter. *)
Theorem delimiters_only_rejected (u : rune -> bool) (regexp : Type)
    (Compile : list Z -> option regexp)
    (FindAllSubmatch : regexp -> list Z -> list (list (list rune))) (helpPage : list rune)
    (d : rune) (n : nat) (rest : list (list Z)) (input : list Z) :
  d <> backslash ->
  xo_main u regexp Compile FindAllSubmatch (Some helpPage) (encode_runes (repeat d n) :: rest)
    false input
  = exitWithError [str "No pattern or formatter specified"].
Proof. intros Hd. unfold xo_main. rewrite split_encode_repeat by done. reflexivity. Qed.

Lemma delimiters_only_rejected_witness :
  xo_main ascii_only unit (fun _ => Some tt) (fun _ _ => []) (Some (str "usage"))
    [encode_runes (repeat 47 3)] false (str "abc")
  = exitWithError [str "No pattern or formatter specified"] /\
  xo_main ascii_only unit (fun _ => Some tt) (fun _ _ => []) (Some (str "usage"))
    [encode_runes (repeat 47 0)] false (str "abc")
  = exitWithError [str "No pattern or formatter specified"].
Proof.
  split; apply delimiters_only_rejected; unfold backslash; lia.
Defined.

(* ------------------------------------------------------------------ *)
(** * strings.Split and compact (src/main.go) *)

Lemma Index_single (b c : Z) (s : list Z) :
  Index (c :: s) [b] = if b =? c then Some 0%nat else option_map S (Index s [b]).
Proof. simpl. destruct (b =? c); reflexivity. Qed.

Lemma chop_prefix_nil_l (s : list Z) : chop_prefix [] s = Some s.
Proof. reflexivity. Qed.

Lemma Index_bound (sep : list Z) :
  forall (s : list Z) m, Index s sep = Some m -> (m + length sep <= length s)%nat.
Proof.
  induction s as [|c s IH]; intros m H; simpl in H.
  - destruct (chop_prefix sep []) as [r|] eqn:E; [|discriminate].
    injection H as <-. apply chop_prefix_spec in E. rewrite E. rewrite length_app. lia.
  - destruct (chop_prefix sep (c :: s)) as [r|] eqn:E.
    + injection H as <-. apply chop_prefix_spec in E. rewrite E, length_app. lia.
    + destruct (Index s sep) as [m'|] eqn:Ei; [|discriminate]. injection H as <-.
      specialize (IH m' eq_refl). simpl. lia.
Qed.

Lemma Index_nil (sep : list Z) : sep <> [] -> Index [] sep = None.
Proof. destruct sep; [done|reflexivity]. Qed.

Lemma Index_take_none (sep : list Z) :
  sep <> [] -> forall (s : list Z) m, Index s sep = Some m -> Index (take m s) sep = None.
Proof.
  intros Hsep. induction s as [|c s IH]; intros m H.
  - by rewrite Index_nil in H.
  - simpl in H. destruct (chop_prefix sep (c :: s)) as [r|] eqn:E.
    + injection H as <-. apply Index_nil, Hsep.
    + destruct (Index s sep) as [m'|] eqn:Ei; [|discriminate]. injection H as <-.
      rewrite firstn_cons. simpl.
      destruct (chop_prefix sep (c :: take m' s)) as [r|] eqn:E2.
      * exfalso. apply chop_prefix_spec in E2.
        assert (Hc : c :: s = sep ++ (r ++ drop m' s)).
        { rewrite app_assoc, <- E2. simpl. by rewrite take_drop. }
        rewrite Hc, chop_prefix_app in E. discriminate.
      * by rewrite (IH m' eq_refl).
Qed.

(** The pieces of strings.Split with enough fuel contain no separator. *)
Lemma split_fuel_no_sep (sep : list Z) :
  sep <> [] -> forall f (s : list Z), (length s < f)%nat ->
  Forall (fun p => Index p sep = None) (split_fuel f s sep).
Proof.
  intros Hsep. induction f as [|f IH]; intros s Hf; [lia|]. simpl.
  destruct (Index s sep) as [m|] eqn:Ei; [|by constructor].
  constructor; [by apply (Index_take_none sep Hsep s)|].
  apply IH. pose proof (Index_bound sep s m Ei).
  destruct sep; [done|]. simpl in *. rewrite length_drop. lia.
Qed.

Lemma compact_spec (P : list Z -> Prop) (l : list (list Z)) :
  Forall P l -> Forall (fun p => p <> [] /\ P p) (compact l).
Proof.
  induction 1 as [|x l Hx Hl IH]; simpl; [constructor|].
  destruct (decide (x = [])); [done|]. by constructor.
Qed.

(** main.go splits with strings.Split: one cut at every occurrence of the
    separator, scanning left to right. *)
Lemma pieces_index (b : Z) :
  forall (s : list Z) m, Index s [b] = Some m ->
  pieces (map (fun c => if c =? b then Sep else Chr c) s)
  = take m s :: pieces (map (fun c => if c =? b then Sep else Chr c) (drop (S m) s)).
Proof.
  induction s as [|c s IH]; intros m H; [discriminate|].
  rewrite Index_single in H. cbn [map].
  destruct (Z.eqb_spec b c) as [<-|Hbc].
  - injection H as <-. rewrite Z.eqb_refl. reflexivity.
  - destruct (Index s [b]) as [m'|] eqn:Ei; [|discriminate]. injection H as <-.
    assert (Hcb : (c =? b) = false) by (apply Z.eqb_neq; congruence).
    rewrite Hcb. cbn [pieces]. rewrite (IH m' eq_refl). reflexivity.
Qed.

Lemma pieces_noindex (b : Z) :
  forall (s : list Z), Index s [b] = None ->
  pieces (map (fun c => if c =? b then Sep else Chr c) s) = [s].
Proof.
  induction s as [|c s IH]; intros H; [reflexivity|].
  rewrite Index_single in H. cbn [map].
  destruct (Z.eqb_spec b c) as [<-|Hbc]; [discriminate|].
  destruct (Index s [b]) eqn:Ei; [discriminate|].
  assert (Hcb : (c =? b) = false) by (apply Z.eqb_neq; congruence).
  rewrite Hcb. cbn [pieces]. rewrite (IH eq_refl). reflexivity.
Qed.

Lemma split_fuel_pieces (b : Z) :
  forall f (s : list Z), (length s < f)%nat ->
  split_fuel f s [b] = pieces (map (fun c => if c =? b then Sep else Chr c) s).
Proof.
  induction f as [|f IH]; intros s Hf; [lia|]. simpl split_fuel.
  destruct (Index s [b]) as [m|] eqn:Ei.
  - rewrite (pieces_index b s m Ei). pose proof (Index_bound _ s m Ei) as Hb. simpl in Hb.
    rewrite Nat.add_1_r. f_equal. apply IH. rewrite length_drop. lia.
  - by rewrite (pieces_noindex b s Ei).
Qed.

Lemma pieces_chr (c : Z) (ts : list token) : pieces (Chr c :: ts) = prepend [c] (pieces ts).
Proof. destruct (pieces_cons ts) as [p [ps E]]. simpl. by rewrite E. Qed.

Lemma pieces_app_free (b : Z) (w s : list Z) :
  w <> [] -> Forall (fun x => x <> b) w ->
  pieces (map (fun c => if c =? b then Sep else Chr c) (w ++ s))
  = prepend w (pieces (map (fun c => if c =? b then Sep else Chr c) s)).
Proof.
  intros Hw Hf. induction Hf as [|x w Hx Hf IH]; [done|].
  cbn [app map]. assert (Hxb : (x =? b) = false) by (apply Z.eqb_neq; congruence).
  rewrite Hxb, pieces_chr.
  destruct w as [|y w].
  - simpl. reflexivity.
  - rewrite IH by done.
    destruct (pieces_cons (map (fun c => if c =? b then Sep else Chr c) s)) as [p [ps E]].
    rewrite E. reflexivity.
Qed.

Lemma EncodeRune_high r :
  ~ (0 <= r < 128) -> Forall (fun x => 128 <= x) (EncodeRune r).
Proof.
  intros Hr.
  destruct (ValidRune r) eqn:Hv; [|rewrite EncodeRune_bad by done; repeat constructor; lia].
  assert (Hrange : 128 <= r <= MaxRune)
    by (unfold ValidRune, MaxRune in *; zcases; lia).
  destruct (Z.lt_ge_cases r 2048).
  { rewrite EncodeRune_2 by lia. repeat constructor; Z.div_mod_to_equations; lia. }
  destruct (Z.lt_ge_cases r 65536).
  { rewrite EncodeRune_3 by (try done; lia). repeat constructor; Z.div_mod_to_equations; lia. }
  rewrite EncodeRune_4 by lia. repeat constructor; Z.div_mod_to_equations; lia.
Qed.

Lemma EncodeRune_free (b r : Z) :
  0 <= b < 128 -> r <> b -> Forall (fun x => x <> b) (EncodeRune r).
Proof.
  intros Hb Hr. destruct (decide (0 <= r < 128)) as [Ha|Ha].
  - rewrite EncodeRune_1 by done. by repeat constructor.
  - eapply Forall_impl; [by apply EncodeRune_high|]. simpl. lia.
Qed.

(** For an ASCII separator, cutting the bytes is cutting the runes. *)
Lemma pieces_encode_runes (b : Z) (rs : list rune) :
  0 <= b < 128 ->
  pieces (map (fun c => if c =? b then Sep else Chr c) (encode_runes rs))
  = map encode_runes (pieces (map (fun c => if c =? b then Sep else Chr c) rs)).
Proof.
  intros Hb. induction rs as [|r rs IH]; [reflexivity|].
  change (encode_runes (r :: rs)) with (EncodeRune r ++ encode_runes rs).
  destruct (Z.eqb_spec r b) as [->|Hrb].
  - rewrite EncodeRune_1 by done. cbn [app map]. rewrite Z.eqb_refl. cbn [pieces map].
    by rewrite IH.
  - rewrite pieces_app_free by (try apply EncodeRune_not_nil; by apply EncodeRune_free).
    rewrite IH. cbn [map]. apply Z.eqb_neq in Hrb. rewrite Hrb, pieces_chr.
    destruct (pieces_cons (map (fun c => if c =? b then Sep else Chr c) rs)) as [p [ps E]].
    rewrite E. reflexivity.
Qed.

Lemma compact_map_encode (ps : list (list rune)) :
  compact (map encode_runes ps) = map encode_runes (drop_empty ps).
Proof.
  induction ps as [|[|x p] ps IH]; [reflexivity|apply IH|].
  cbn [map compact drop_empty]. rewrite decide_False; [by rewrite IH|].
  intros E. pose proof (proj1 (encode_runes_nil_iff _) E). discriminate.
Qed.

Lemma spec_tokens_plain (d : rune) (rs : list rune) :
  backslash ∉ rs -> spec_tokens d rs = map (fun c => if c =? d then Sep else Chr c) rs.
Proof.
  induction rs as [|c rs IH]; intros H; [reflexivity|].
  apply not_elem_of_cons in H as [Hc H].
  assert (Hcb : (c =? backslash) = false) by (apply Z.eqb_neq; congruence).
  destruct rs as [|p rs]; [reflexivity|].
  rewrite spec_tokens_two, Hcb. simpl andb. cbv iota. rewrite IH by done. reflexivity.
Qed.

Lemma elem_of_encode_runes_ascii (c : Z) (rs : list rune) :
  0 <= c < 128 -> c ∈ rs -> c ∈ encode_runes rs.
Proof.
  intros Hc. induction rs as [|r rs IH]; intros H; [by apply not_elem_of_nil in H|].
  change (encode_runes (r :: rs)) with (EncodeRune r ++ encode_runes rs).
  apply elem_of_app. apply elem_of_cons in H as [->|H].
  - left. rewrite EncodeRune_1 by done. by left.
  - right. by apply IH.
Qed.

(** ** X: the two splitters agree when nothing is escaped *)

(** For an argument in valid UTF-8 that starts with an ASCII delimiter
    and has no backslash after it, split (src/xo.go) returns exactly the
    parts the older main computes, compact(strings.Split(arg, delimiter)). *)
Theorem split_agrees_with_strings_Split (b : Z) (rest : list Z) :
  0 <= b < 128 -> Forall (fun x => 0 <= x < 256) rest -> ValidString (b :: rest) = true ->
  backslash ∉ rest ->
  split (b :: rest) = Some (compact (strings_Split (b :: rest) (EncodeRune b))).
Proof.
  intros Hb Hbytes Hv Hbs.
  pose proof (DecodeRuneInString_ascii b rest Hb) as Ed.
  rewrite split_spec_reading by (try done; rewrite Ed; unfold RuneError; simpl; lia).
  rewrite (decode_all_cons (b :: rest) b 1 ltac:(discriminate) Ed). cbn [drop spec_split].
  rewrite drop_0.
  assert (Hvr : ValidString rest = true).
  { rewrite (ValidString_cons (b :: rest) b 1 ltac:(discriminate) Ed) in Hv.
    apply andb_true_iff in Hv as [_ Hv]. exact Hv. }
  pose proof (encode_runes_decode_all rest Hbytes Hvr) as Er.
  remember (decode_all rest) as R eqn:HR. clear HR.
  assert (HbR : backslash ∉ R).
  { intros HR. apply Hbs. rewrite <- Er.
    apply elem_of_encode_runes_ascii; [unfold backslash; lia|done]. }
  rewrite spec_tokens_plain by done.
  rewrite EncodeRune_1 by done. unfold strings_Split.
  rewrite split_fuel_pieces by lia. cbn [map]. rewrite Z.eqb_refl. cbn [pieces compact].
  rewrite decide_True by done. rewrite <- Er, pieces_encode_runes by done.
  by rewrite compact_map_encode.
Qed.

Lemma split_agrees_with_strings_Split_witness :
  split (str "/([a-z]+) ([0-9]+)/$2 $1/i")
  = Some (compact (strings_Split (str "/([a-z]+) ([0-9]+)/$2 $1/i") (EncodeRune 47))) /\
  split (str "/([a-z]+) ([0-9]+)/$2 $1/i") = Some [str "([a-z]+) ([0-9]+)"; str "$2 $1"; str "i"].
Proof.
  split; [|reflexivity].
  apply (split_agrees_with_strings_Split 47 (str "([a-z]+) ([0-9]+)/$2 $1/i")).
  - lia.
  - repeat constructor; lia.
  - reflexivity.
  - unfold backslash. vm_compute. intros H. repeat (apply elem_of_cons in H as [H|H]; [discriminate|]).
    by apply not_elem_of_nil in H.
Defined.

(** ** X: what the parts of a main.go argument never hold *)

(** In the older main, splitting is compact(strings.Split(arg, delimiter)):
    every part is non-empty and contains no occurrence of the delimiter,
    since there is no escape (a backslash before it does not protect it). *)
Theorem old_parts_nonempty_without_delimiter (s sep : list Z) :
  sep <> [] ->
  Forall (fun p => p <> [] /\ Index p sep = None) (compact (strings_Split s sep)).
Proof.
  intros Hsep. apply compact_spec. apply (split_fuel_no_sep sep Hsep). simpl. lia.
Qed.

Lemma old_parts_nonempty_without_delimiter_witness :
  compact (strings_Split (str "/a\/b///c/") (str "/")) = [str "a\"; str "b"; str "c"] /\
  Forall (fun p => p <> [] /\ Index p (str "/") = None)
    (compact (strings_Split (str "/a\/b///c/") (str "/"))).
Proof.
  split; [reflexivity|]. apply old_parts_nonempty_without_delimiter. discriminate.
Defined.

(** ** X: where the older main panics *)

(** The older main ends in a run-time panic exactly when it has an
    argument, stdin is not a terminal and the argument is empty (arg[0]
    is out of range); every other run ends without a panic, through
    os.Exit on the error and usage paths or by returning from main after
    printing its lines. *)
Theorem old_main_panics_iff_empty_argument (u : rune -> bool) (regexp : Type)
    (CompileE : list Z -> regexp + list rune)
    (FindAllSubmatch : regexp -> list Z -> list (list (list rune)))
    (args : list (list Z)) (tty : bool) (input : list Z) :
  (exists msg, old_main u regexp CompileE FindAllSubmatch args tty input = Panic msg)
  <-> tty = false /\ exists rest, args = [] :: rest.
Proof.
  split.
  - intros [msg H]. unfold old_main in H.
    destruct args as [|arg rest]; [discriminate|].
    destruct tty; [discriminate|]. split; [done|].
    destruct arg as [|b0 arg]; [by exists rest|].
    exfalso. revert H. repeat case_match; discriminate.
  - intros [-> [rest ->]]. eexists. reflexivity.
Qed.

(* ------------------------------------------------------------------ *)
(** * The substitution loop: more of its behaviour *)

Lemma itoa_small (k : nat) : (k < 10)%nat -> itoa k = [48 + Z.of_nat k].
Proof.
  intros Hk. unfold itoa. cbn [digits_fuel].
  rewrite (Nat.mod_small k 10 Hk). by rewrite (proj2 (Nat.ltb_lt k 10) Hk).
Qed.

Lemma rxFallback_second (k : nat) (c : rune) (s : list rune) :
  (k < 10)%nat -> c <> 48 + Z.of_nat k -> rxFallback k (36 :: c :: s) = None.
Proof.
  intros Hk Hc. unfold rxFallback, placeholder. rewrite itoa_small by done.
  cbn [app chop_prefix]. rewrite Z.eqb_refl.
  destruct (Z.eqb_spec (48 + Z.of_nat k) c); [congruence|reflexivity].
Qed.

Lemma rxRepl_second (k : nat) (c : rune) (s : list rune) :
  (k < 10)%nat -> c <> 48 + Z.of_nat k -> rxRepl k (36 :: c :: s) = None.
Proof.
  intros Hk Hc. unfold rxRepl, placeholder. rewrite itoa_small by done.
  cbn [app chop_prefix]. rewrite Z.eqb_refl.
  destruct (Z.eqb_spec (48 + Z.of_nat k) c); [congruence|reflexivity].
Qed.

Lemma digit_not_dollar (i : nat) : (i <= 9)%nat -> 48 + Z.of_nat i <> dollar.
Proof. unfold dollar. lia. Qed.

(** The steps for the indices before [i], a single digit, leave a
    template whose only `$` is followed by the digit [i] untouched. *)
Lemma format_groups_other (u : rune -> bool) (i : nat) (pre post : list rune) :
  (i <= 9)%nat -> dollar ∉ pre -> dollar ∉ post ->
  forall (g : list (list rune)) fbs k, (k + length g <= i)%nat ->
  format_groups u fbs k g (pre ++ 36 :: (48 + Z.of_nat i) :: post)
  = (fbs, pre ++ 36 :: (48 + Z.of_nat i) :: post).
Proof.
  intros Hi Hpre Hpost. induction g as [|v g IH]; intros fbs k Hk; [reflexivity|].
  simpl in Hk. cbn [format_groups].
  assert (Hd : 48 + Z.of_nat i <> 48 + Z.of_nat k) by lia.
  assert (Hfree : dollar ∉ (48 + Z.of_nat i) :: post).
  { apply not_elem_of_cons. split; [|done]. intros E. apply (digit_not_dollar i Hi). by symmetry. }
  unfold format_index at 1, register_fallback at 1.
  rewrite (find_app _ dollar) by (done || apply rxFallback_heads).
  rewrite find_skip by (apply rxFallback_second; [lia|done]).
  rewrite (find_without _ dollar) by (done || apply rxFallback_heads).
  rewrite ReplaceAllString_none.
  - apply IH. lia.
  - rewrite (find_app _ dollar) by (done || apply rxRepl_heads).
    rewrite find_skip by (apply rxRepl_second; [lia|done]).
    by apply (find_without _ dollar); [apply rxRepl_heads|].
Qed.

Lemma Expand_dollar1 (u : rune -> bool) x (y : list rune) z :
  Expand u [x; Some y; z] (str "$1") = y.
Proof. change (str "$1") with [36; 49]. cbn. by rewrite ?app_nil_r. Qed.

Lemma placeholder_small (i : nat) : (i <= 9)%nat -> placeholder i = [36; 48 + Z.of_nat i].
Proof. intros Hi. unfold placeholder. rewrite itoa_small by lia. reflexivity. Qed.

Lemma format_all_length (u : rune -> bool) (fmt : list rune) (ms : list (list (list rune))) :
  forall fbs, length (format_all u fbs fmt ms).2 = length ms.
Proof.
  induction ms as [|g ms IH]; intros fbs; [reflexivity|].
  simpl. destruct (format_match u fbs fmt g) as [fbs1 line].
  specialize (IH fbs1). destruct (format_all u fbs1 fmt ms). simpl in *. lia.
Qed.

Lemma format_all_nth (u : rune -> bool) (fmt : list rune) (ms : list (list (list rune))) fbs k :
  (k < length ms)%nat ->
  nth k (format_all u fbs fmt ms).2 []
  = (format_match u (format_all u fbs fmt (take k ms)).1 fmt (nth k ms [])).2.
Proof.
  intros Hk. rewrite <- (take_drop k ms) at 1. rewrite format_all_app.
  destruct (drop k ms) as [|g ms2] eqn:Ed.
  { apply (f_equal length) in Ed. rewrite length_drop in Ed. simpl in Ed. lia. }
  assert (Hg : nth k ms [] = g).
  { rewrite <- (take_drop k ms), Ed, app_nth2; rewrite length_take; [|lia].
    by replace (k - k `min` length ms)%nat with 0%nat by lia. }
  rewrite Hg. cbn [snd].
  rewrite app_nth2; rewrite format_all_length, length_take; [|lia].
  replace (k - k `min` length ms)%nat with 0%nat by lia.
  cbn [format_all]. destruct (format_match u (format_all u fbs fmt (take k ms)).1 fmt g).
  by destruct (format_all _ _ _ _).
Qed.

Lemma format_groups_app (u : rune -> bool) (g1 g2 : list (list rune)) :
  forall fbs k (r : list rune),
  format_groups u fbs k (g1 ++ g2) r
  = let '(fbs1, r1) := format_groups u fbs k g1 r in format_groups u fbs1 (k + length g1) g2 r1.
Proof.
  induction g1 as [|v g1 IH]; intros fbs k r; [by rewrite Nat.add_0_r|].
  cbn [app format_groups length]. destruct (format_index u fbs k v r) as [f1 r1].
  rewrite IH. by rewrite Nat.add_succ_r.
Qed.

Lemma replace_hit_any (u : rune -> bool) (m : matcher) (s t : list rune) gs rest :
  consumes m -> m s = Some (gs, rest) ->
  ReplaceAllString u m s t = Expand u gs t ++ ReplaceAllString u m rest t.
Proof.
  intros Hc H. destruct s as [|c s].
  - pose proof (Hc _ _ _ H). simpl in *. lia.
  - by apply replace_hit.
Qed.

Lemma rxRepl_at (i : nat) (post : list rune) :
  rxRepl i (placeholder i ++ post) = Some ([Some (placeholder i)], post).
Proof. unfold rxRepl. by rewrite chop_prefix_app. Qed.

Lemma old_rxFallback_heads i : heads_with (old_rxFallback i) dollar.
Proof.
  intros s x H. unfold old_rxFallback in H.
  destruct (chop_prefix (placeholder i ++ [63; 58]) s) as [r|] eqn:E; [|discriminate].
  apply chop_prefix_spec in E as ->. by eexists.
Qed.

Lemma old_fallback_run_app (l post : list rune) :
  Forall (fun c => old_fallback_char c = true) l -> old_fallback_run post = ([], post) ->
  old_fallback_run (l ++ post) = (l, post).
Proof.
  intros Hl Hp. induction Hl as [|c l Hc _ IH]; [done|].
  simpl. rewrite Hc, IH. reflexivity.
Qed.

Lemma old_rxFallback_run (i : nat) (l post : list rune) :
  l <> [] -> Forall (fun c => old_fallback_char c = true) l -> old_fallback_run post = ([], post) ->
  old_rxFallback i (placeholder i ++ [63; 58] ++ l ++ post)
  = Some ([Some (placeholder i ++ [63; 58] ++ l); Some (placeholder i); Some l], post).
Proof.
  intros Hne Hl Hp. destruct l as [|c l]; [done|].
  unfold old_rxFallback. rewrite app_assoc, chop_prefix_app.
  cbn [app]. cbv beta iota. inversion Hl as [|? ? Hc Hl']; subst. rewrite Hc.
  rewrite (old_fallback_run_app l post) by done. reflexivity.
Qed.

(** ** X: a format with no `$` *)

(** A format without `$` has no placeholder and no marker: every match
    prints the format itself and the fallback table is left as it was. *)
Theorem format_all_without_dollar (u : rune -> bool) fbs (fmt : list rune)
    (ms : list (list (list rune))) :
  dollar ∉ fmt -> format_all u fbs fmt ms = (fbs, repeat fmt (length ms)).
Proof.
  intros Hf. induction ms as [|g ms IH]; [reflexivity|].
  cbn [format_all]. unfold format_match. rewrite format_groups_without by done.
  rewrite IH. reflexivity.
Qed.

Lemma format_all_without_dollar_witness :
  format_all ascii_only ∅ (str "hit") [[str "a"; str "a"]; [str "b"]]
  = (∅, repeat (str "hit") 2).
Proof.
  apply format_all_without_dollar. by apply (bool_decide_unpack _); vm_compute.
Defined.

(** ** X: a single fallback marker *)

Lemma fallback_tail_stop (l post : list rune) :
  Forall (fun c => fallback_char c = true) l -> literal_stops post = true ->
  fallback_tail (l ++ post) = (l, post).
Proof.
  intros Hl Hp. induction Hl as [|c l Hc _ IH].
  - destruct post as [|p post]; [reflexivity|]. simpl in Hp |- *.
    destruct (fallback_char p); [discriminate|]. simpl in Hp.
    destruct (p =? backslash); [|reflexivity].
    destruct post as [|d post]; [reflexivity|].
    destruct (d =? newline); [reflexivity|discriminate].
  - simpl. rewrite Hc, IH. reflexivity.
Qed.

Lemma rxFallback_run_stop (i : nat) (l post : list rune) :
  l <> [] -> Forall (fun c => fallback_char c = true) l -> literal_stops post = true ->
  rxFallback i (placeholder i ++ [63; 58] ++ l ++ post)
  = Some ([Some (placeholder i ++ [63; 58] ++ l); Some (placeholder i); Some l], post).
Proof.
  intros Hne Hl Hp. destruct l as [|c l]; [done|].
  unfold rxFallback. rewrite app_assoc, chop_prefix_app.
  cbn [app]. cbv beta iota. inversion Hl as [|? ? Hc Hl']; subst. rewrite Hc.
  rewrite (fallback_tail_stop l post) by done. reflexivity.
Qed.

Lemma find_app_gen (m : matcher) (pre s : list rune) :
  (forall k, (k < length pre)%nat -> m (drop k (pre ++ s)) = None) ->
  FindStringSubmatch m (pre ++ s) = FindStringSubmatch m s.
Proof.
  induction pre as [|c pre IH]; intros H; [reflexivity|].
  cbn [app]. rewrite find_skip by (apply (H 0%nat); simpl; lia).
  apply IH. intros k Hk. apply (H (S k)). simpl. lia.
Qed.

Lemma marker_line (u : rune -> bool) fbs (pre lit post c : list rune) (i : nat)
    (g1 g2 : list (list rune)) :
  (i <= 9)%nat -> length g1 = i -> dollar ∉ pre -> dollar ∉ post -> literal_stops post = true ->
  lit <> [] -> Forall (fun x => fallback_char x = true) lit ->
  dollar ∉ effective_value
             (match fbs !! i with Some _ => fbs | None => <[i := lit]> fbs end) i c ->
  format_match u fbs (pre ++ placeholder i ++ [63; 58] ++ lit ++ post) (g1 ++ c :: g2)
  = (match fbs !! i with Some _ => fbs | None => <[i := lit]> fbs end,
     pre ++ effective_value
              (match fbs !! i with Some _ => fbs | None => <[i := lit]> fbs end) i c ++ post).
Proof.
  intros Hi Hlen Hpre Hpost Hend Hne Hlit Hv.
  set (fbs1 := match fbs !! i with Some _ => fbs | None => <[i := lit]> fbs end) in *.
  assert (Hlf : dollar ∉ lit) by (by apply dollar_free_of_run).
  unfold format_match. rewrite format_groups_app.
  rewrite placeholder_small by done. cbn [app].
  rewrite (format_groups_other u i pre (63 :: 58 :: lit ++ post) Hi Hpre) by
    (try lia; repeat (apply not_elem_of_cons; split; [unfold dollar; lia|]);
     by apply elem_of_dollar_free).
  rewrite Nat.add_0_l, Hlen. cbn [format_groups].
  change (36 :: 48 + Z.of_nat i :: 63 :: 58 :: lit ++ post)
    with ([36; 48 + Z.of_nat i] ++ [63; 58] ++ lit ++ post).
  rewrite <- placeholder_small by done.
  pose proof (rxFallback_run_stop i lit post Hne Hlit Hend) as Hm.
  unfold format_index, register_fallback.
  rewrite (find_app _ dollar) by (done || apply rxFallback_heads).
  rewrite (find_hit _ _ _ _ Hm). cbn [length Nat.ltb Nat.leb].
  unfold group_text. cbn [nth_error]. rewrite (unescape_run u lit Hlit). fold fbs1.
  rewrite (replace_app u _ dollar) by (done || apply rxFallback_heads || apply rxFallback_consumes).
  rewrite (replace_hit_any u _ _ _ _ _ (rxFallback_consumes i) Hm).
  rewrite Expand_dollar1, (replace_without u _ dollar post) by (done || apply rxFallback_heads).
  rewrite (replace_app u _ dollar) by (done || apply rxRepl_heads || apply rxRepl_consumes).
  rewrite (replace_hit_any u _ _ _ _ _ (rxRepl_consumes i) (rxRepl_at i post)).
  rewrite Expand_without by done.
  rewrite (replace_without u _ dollar post) by (done || apply rxRepl_heads).
  apply format_groups_without. repeat apply elem_of_dollar_free; done.
Qed.

(** In a template whose only `$` is one marker `$i?:lit` for a
    single-digit index [i] (a non-empty literal of plain characters,
    followed by text that cannot continue it), the line is the text
    around the marker with the marker replaced by the effective value of
    capture [i], where the table gains [lit] for [i] unless it had an
    entry; the captures before and after [i] play no part. *)
Theorem single_marker_line (u : rune -> bool) fbs (pre lit post c : list rune) (i : nat)
    (g1 g2 : list (list rune)) :
  (i <= 9)%nat -> length g1 = i -> dollar ∉ pre -> dollar ∉ post -> literal_stops post = true ->
  lit <> [] -> Forall (fun x => fallback_char x = true) lit ->
  dollar ∉ effective_value
             (match fbs !! i with Some _ => fbs | None => <[i := lit]> fbs end) i c ->
  format_match u fbs (pre ++ placeholder i ++ [63; 58] ++ lit ++ post) (g1 ++ c :: g2)
  = (match fbs !! i with Some _ => fbs | None => <[i := lit]> fbs end,
     pre ++ effective_value
              (match fbs !! i with Some _ => fbs | None => <[i := lit]> fbs end) i c ++ post).
Proof. apply marker_line. Qed.

Lemma single_marker_line_witness :
  format_match ascii_only ∅ (str "<" ++ placeholder 1 ++ [63; 58] ++ str "ab" ++ str "?x")
    ([str "w"] ++ [] :: [])
  = (<[1%nat := str "ab"]> ∅, str "<" ++ str "ab" ++ str "?x").
Proof.
  pose proof (single_marker_line ascii_only ∅ (str "<") (str "ab") (str "?x") [] 1
           [str "w"] []) as W.
  exact (W ltac:(lia) eq_refl ltac:(by apply (bool_decide_unpack _); vm_compute)
           ltac:(by apply (bool_decide_unpack _); vm_compute) eq_refl ltac:(discriminate)
           ltac:(repeat constructor) ltac:(by apply (bool_decide_unpack _); vm_compute)).
Defined.

(** ** X: the fallback literal of the older main *)

(** In src/main.go the leftmost marker `$i?:lit` (no match of the marker
    pattern starts before it) for an index without an entry stores its
    literal exactly as written: the class
    `[-_$A-za-z1-9]` lets it take in `$` (so a following placeholder) and,
    through the range A-z, the backslash, and nothing is de-escaped. *)
Theorem old_fallback_literal_verbatim (u : rune -> bool) fbs (i : nat) (pre lit post : list rune) :
  (forall k, (k < length pre)%nat ->
     old_rxFallback i (drop k (pre ++ placeholder i ++ [63; 58] ++ lit ++ post)) = None) ->
  lit <> [] -> Forall (fun c => old_fallback_char c = true) lit ->
  old_fallback_run post = ([], post) -> fbs !! i = None ->
  (old_register u fbs i (pre ++ placeholder i ++ [63; 58] ++ lit ++ post)).1 = <[i := lit]> fbs.
Proof.
  intros Hpre Hne Hlit Hpost Hi. unfold old_register.
  rewrite (find_app_gen _ pre) by done.
  rewrite (find_hit _ _ _ _ (old_rxFallback_run i lit post Hne Hlit Hpost)).
  cbn [length Nat.ltb Nat.leb]. rewrite Hi. reflexivity.
Qed.

Lemma old_fallback_literal_verbatim_witness :
  (old_register ascii_only ∅ 1 (str "a$b<" ++ placeholder 1 ++ [63; 58] ++ str "x$2\" ++ str " >")).1
  = <[1%nat := str "x$2\"]> ∅.
Proof.
  apply old_fallback_literal_verbatim.
  - intros k Hk. destruct k as [|[|[|[|k]]]]; [vm_compute; reflexivity ..|].
    vm_compute in Hk. lia.
  - discriminate.
  - repeat constructor.
  - reflexivity.
  - reflexivity.
Defined.

(** ** X: a successful run of main *)

(** When the argument splits into a pattern and a format (and perhaps
    flags), the pattern compiles and finds matches, main exits with
    status 0, writes nothing on stderr and prints one line per match:
    line k is the format filled from match k with the fallback table left
    by the matches before it. *)
Theorem xo_main_one_line_per_match (u : rune -> bool) (regexp : Type)
    (Compile : list Z -> option regexp)
    (FindAllSubmatch : regexp -> list Z -> list (list (list rune))) (helpPage : list rune)
    (arg : list Z) (rest : list (list Z)) (input : list Z) (parts : list (list Z)) (rx : regexp) :
  split arg = Some parts -> (2 <= length parts <= 3)%nat ->
  Compile (full_pattern parts) = Some rx -> FindAllSubmatch rx input <> [] ->
  exit_code (xo_main u regexp Compile FindAllSubmatch (Some helpPage) (arg :: rest) false input) = 0 /\
  stderr (xo_main u regexp Compile FindAllSubmatch (Some helpPage) (arg :: rest) false input) = [] /\
  length (stdout (xo_main u regexp Compile FindAllSubmatch (Some helpPage) (arg :: rest) false input))
  = length (FindAllSubmatch rx input) /\
  forall k, (k < length (FindAllSubmatch rx input))%nat ->
  nth k (stdout (xo_main u regexp Compile FindAllSubmatch (Some helpPage) (arg :: rest) false input)) []
  = (format_match u
       (format_all u ∅ (decode_all (nth 1 parts [])) (take k (FindAllSubmatch rx input))).1
       (decode_all (nth 1 parts [])) (nth k (FindAllSubmatch rx input) [])).2.
Proof.
  intros Hs [Hlo Hhi] Hc Hne.
  assert (E : xo_main u regexp Compile FindAllSubmatch (Some helpPage) (arg :: rest) false input
              = {| stdout := (format_all u ∅ (decode_all (nth 1 parts [])) (FindAllSubmatch rx input)).2;
                   stderr := []; exit_code := 0 |}).
  { unfold xo_main. rewrite Hs, (leb_1_false _ Hlo), (ltb_3_false _ Hhi), Hc.
    destruct (FindAllSubmatch rx input); [done|reflexivity]. }
  rewrite E. cbn [exit_code stderr stdout].
  split; [done|]. split; [done|]. split; [apply format_all_length|].
  intros k Hk. by apply format_all_nth.
Qed.

Lemma xo_main_one_line_per_match_witness :
  stdout (xo_main ascii_only unit (fun _ => Some tt)
            (fun _ _ => [[str "a"; str "a"; []]; [str "bc"; str "bc"; str "c"]]) (Some (str "usage"))
            [str "/x/$1:$2?:none/"] false (str "a bc"))
  = [str "a:none"; str "bc:c"] /\
  nth 1 (stdout (xo_main ascii_only unit (fun _ => Some tt)
            (fun _ _ => [[str "a"; str "a"; []]; [str "bc"; str "bc"; str "c"]]) (Some (str "usage"))
            [str "/x/$1:$2?:none/"] false (str "a bc"))) []
  = (format_match ascii_only
       (format_all ascii_only ∅ (decode_all (str "$1:$2?:none"))
          (take 1 [[str "a"; str "a"; []]; [str "bc"; str "bc"; str "c"]])).1
       (decode_all (str "$1:$2?:none")) (nth 1 [[str "a"; str "a"; []]; [str "bc"; str "bc"; str "c"]] [])).2.
Proof.
  split; [reflexivity|].
  destruct (xo_main_one_line_per_match ascii_only unit (fun _ => Some tt)
              (fun _ _ => [[str "a"; str "a"; []]; [str "bc"; str "bc"; str "c"]]) (str "usage")
              (str "/x/$1:$2?:none/") [] (str "a bc") [str "x"; str "$1:$2?:none"] tt)
    as [_ [_ [_ H]]].
  - reflexivity.
  - simpl. lia.
  - reflexivity.
  - discriminate.
  - apply H. simpl. lia.
Defined.

(** ** X: what main writes, whatever the run *)

(** Once the help page is generated and flag.Parse has left the
    positional arguments, main never writes on stderr and ends with
    status 0 or 1; with status 1 it has printed exactly one line, the
    error message (the two-line exit `Failed to parse default arguments`
    cannot happen: the fallback pattern compiles for every index). *)
Theorem xo_main_output_discipline (u : rune -> bool) (regexp : Type)
    (Compile : list Z -> option regexp)
    (FindAllSubmatch : regexp -> list Z -> list (list (list rune))) (helpPage : list rune)
    (args : list (list Z)) (tty : bool) (input : list Z) :
  stderr (xo_main u regexp Compile FindAllSubmatch (Some helpPage) args tty input) = [] /\
  (exit_code (xo_main u regexp Compile FindAllSubmatch (Some helpPage) args tty input) = 0 \/
   (exit_code (xo_main u regexp Compile FindAllSubmatch (Some helpPage) args tty input) = 1 /\
    length (stdout (xo_main u regexp Compile FindAllSubmatch (Some helpPage) args tty input)) = 1%nat)).
Proof.
  unfold xo_main. destruct args as [|arg rest]; [simpl; auto|].
  destruct tty; [simpl; auto|].
  repeat case_match; simpl; auto.
Qed.

(** ** X: de-escaping a fallback literal *)

(** rxEsc.ReplaceAllString(lit, "$1") scans left to right: a backslash
    followed by any character but a newline is dropped and the character
    kept as it is (so it is not read again: a doubled backslash leaves one);
    any other character, and a backslash at the end or before a newline,
    stays. *)
Theorem unescape_steps (u : rune -> bool) :
  unescape u [] = [] /\
  unescape u [backslash] = [backslash] /\
  (forall c (s : list rune), c <> newline -> unescape u (backslash :: c :: s) = c :: unescape u s) /\
  (forall (s : list rune), unescape u (backslash :: newline :: s) = backslash :: unescape u (newline :: s)) /\
  (forall x (s : list rune), x <> backslash -> unescape u (x :: s) = x :: unescape u s).
Proof.
  unfold unescape. split; [reflexivity|]. split; [reflexivity|]. split; [|split].
  - intros c s Hc.
    assert (H : rxEsc (backslash :: c :: s) = Some ([Some [backslash; c]; Some [c]], s)).
    { unfold rxEsc. rewrite Z.eqb_refl. apply Z.eqb_neq in Hc. by rewrite Hc. }
    rewrite (replace_hit u _ _ _ _ _ _ rxEsc_consumes H).
    change (str "$1") with [36; 49]. reflexivity.
  - intros s. apply replace_skip; [apply rxEsc_consumes|reflexivity].
  - intros x s Hx. apply replace_skip; [apply rxEsc_consumes|].
    by apply (matcher_other _ backslash); [apply rxEsc_heads|].
Qed.

(** ** X: split reads its argument as tokens *)

(** On valid UTF-8 whose first rune is not U+FFFD, split is the token
    reading of the argument: after the delimiter, a backslash directly
    followed by the delimiter stands for the delimiter character, every
    other delimiter separates, anything else is itself (a backslash before
    another character is kept); the pieces between separators are the
    components, the empty ones left out. *)
Theorem split_token_reading (s : list Z) :
  ValidString s = true -> (DecodeRuneInString s).1 <> RuneError ->
  split s = Some (map encode_runes (spec_split (decode_all s))).
Proof. apply split_spec_reading. Qed.

Lemma split_token_reading_witness :
  split (str "|a\|b|\x||c|") = Some [str "a|b"; str "\x"; str "c"] /\
  split (str "|a\|b|\x||c|") = Some (map encode_runes (spec_split (decode_all (str "|a\|b|\x||c|")))).
Proof.
  split; [reflexivity|]. apply split_token_reading; [reflexivity|].
  vm_compute. discriminate.
Defined.

(** ** C7 *)



